(** * exp-perf: the perf_event counter and the adaptive sampling collector

    A shallow embedding of [src/counter.h] and [src/collector.h], and what
    holds of them.

    - [int] and [long long] values are integers of [Z]. Where an [int]
      computation of the source can leave the 32-bit range ([n_tot + n],
      [new_n - n_tot], [N *= 2], [++i] in the batch loop, the [long] a system
      call returns stored in an [int]) its two's-complement wrap-around is
      written out ([wrap_int]).
    - [double] values are IEEE 754 binary64 numbers ([PrimFloat]), every
      arithmetic operation of the source rounded once, to nearest; the
      conversions of the C++ expressions ([int] and [long long] to [double],
      [double] to [int]) are written out. [std::log] and the result of
      converting a [double] that no [int] represents belong to the platform
      and are parameters ([Platform]).
    - The Linux kernel ([perf_event_open], [ioctl], [read], [errno]) and the
      workload callbacks are state transformers on an abstract world [W]
      ([Kernel], [callback], [updater]).
    - The code runs in a state-and-exception monad [M]: the state holds the
      counter object, the world, and a trace that records every timed trial
      with the count it read and every report given to the updater; an
      exception ([Thrown]) or a vector indexed out of its bounds
      ([Undefined]) ends the computation and keeps the state.
    - The destructor's [close] is a system call of its own ([Closing]). A
      recording world ([Recorder]) keeps the list of the system calls and
      callbacks made, to state in what order the code makes them.
    - The two loops over a fixed range ([collect], the rounds of a session)
      and the loops over the channels recurse on the number of iterations to
      go; the batch loop [for (int i = 0; i <= n; ++i)], which does not end
      when [n = INT_MAX], takes fuel. *)

From Stdlib Require Import ZArith Lia Floats Bool.
From stdpp Require Import base tactics option list.

#[local] Set Warnings "-inexact-float".

Open Scope Z_scope.

(** * Machine arithmetic *)

Definition INT_MAX : Z := 2147483647.
Definition INT_MIN : Z := -2147483648.

(** The value of an [int] expression whose mathematical result is [z]. *)
Definition wrap_int (z : Z) : Z :=
  (z + 2147483648) mod 4294967296 - 2147483648.

(** Conversion of an integer ([int] or [long long]) to [double]: the nearest
    binary64 value, ties to even. *)
Definition double_of_Z (z : Z) : float :=
  SF2Prim (binary_normalize prec emax z 0 false).

(** The integer part of a finite [double] (rounding toward zero); [None] for
    an infinity or a NaN. *)
Definition trunc_double (x : float) : option Z :=
  match Prim2SF x with
  | S754_zero _ => Some 0
  | S754_finite s m e =>
      let a := if 0 <=? e then Z.pos m * 2 ^ e else Z.pos m / 2 ^ (- e) in
      Some (if s then - a else a)
  | S754_infinity _ | S754_nan => None
  end.

(** What the C++ code takes from its platform and is not part of the
    repository: [std::log] of <cmath>, and the [int] a [double]-to-[int]
    conversion yields when the truncated value does not fit an [int] (the
    language leaves it undefined; x86-64 yields [INT_MIN]). *)
Class Platform := {
  log : float -> float;
  cvt_invalid : float -> Z
}.

(** The cast [(int) x]. *)
Definition int_of_double {P : Platform} (x : float) : Z :=
  match trunc_double x with
  | Some z =>
      if (INT_MIN <=? z) && (z <=? INT_MAX) then z
      else wrap_int (cvt_invalid x)
  | None => wrap_int (cvt_invalid x)
  end.

(** * Outcomes of a computation *)

Inductive outcome (A : Type) : Type :=
| Returned (a : A)        (* normal return *)
| Thrown (errno : Z)      (* a std::system_error, or a callback's exception *)
| Undefined               (* a vector indexed outside its bounds *)
| OutOfFuel.              (* the fuel of a loop ran out *)

Arguments Returned {A} a.
Arguments Thrown {A} errno.
Arguments Undefined {A}.
Arguments OutOfFuel {A}.

(** The outcomes C++ defines: a return or an exception. *)
Definition exits {A} (r : outcome A) : Prop :=
  match r with
  | Returned _ | Thrown _ => True
  | Undefined | OutOfFuel => False
  end.

(** * The Linux interface (linux/perf_event.h, the system calls) *)

(** The constants of <linux/perf_event.h> the code names, with their values
    in the Linux ABI. Of the values, the statements below use only that the
    four events requested by the collector differ. *)

Definition PERF_TYPE_HARDWARE : Z := 0.
Definition PERF_TYPE_SOFTWARE : Z := 1.
Definition PERF_COUNT_HW_INSTRUCTIONS : Z := 1.
Definition PERF_COUNT_HW_REF_CPU_CYCLES : Z := 9.
Definition PERF_COUNT_SW_CPU_CLOCK : Z := 0.
Definition PERF_COUNT_SW_TASK_CLOCK : Z := 1.
Definition PERF_EVENT_IOC_ENABLE : Z := 9216.
Definition PERF_EVENT_IOC_DISABLE : Z := 9217.
Definition PERF_EVENT_IOC_RESET : Z := 9219.

(** The fields of [struct perf_event_attr] that [init_event] sets; all the
    others are zeroed by its [memset]. *)
Record perf_event_attr := {
  pe_type : Z;
  pe_size : Z;
  pe_config : Z;
  pe_disabled : Z;
  pe_exclude_kernel : Z;
  pe_exclude_hv : Z
}.

(** The kernel, as a family of state transformers on the world [W].
    [sys_read fd buf w] is [::read(fd, &buf, sizeof(long long))]: it gives the
    return value and the [long long] the buffer holds after the call. *)
Class Kernel (W : Type) := {
  sizeof_perf_event_attr : Z;
  sys_perf_event_open : perf_event_attr -> Z -> Z -> Z -> Z -> W -> Z * W;
  sys_ioctl : Z -> Z -> Z -> W -> Z * W;
  sys_read : Z -> Z -> W -> Z * Z * W;
  sys_errno : W -> Z
}.

(** What the collector's clients observe: every timed trial with the count
    read from the selected channel, and every report given to the updater. *)
Inductive event : Type :=
| Trial (input_sz : Z) (cnt : Z)
| Report (input_sz : Z) (sum : float) (L_hat : Z) (n_tot : Z).

(** * counter.h *)

Module Counter.

Record counter := {
  m_events : list perf_event_attr;
  m_fds : list Z;
  m_counts : list Z
}.

(** A counter before its constructor's body runs: three empty vectors. *)
Definition empty : counter :=
  {| m_events := []; m_fds := []; m_counts := [] |}.

Section Methods.
Context {W : Type} {K : Kernel W}.

(** The state a method runs in: the counter object, the world, the trace. *)
Record machine := {
  ctr : counter;
  world : W;
  trace : list event
}.

Definition M (A : Type) : Type := machine -> outcome A * machine.

Definition ret {A} (a : A) : M A := fun m => (Returned a, m).

Definition bind {A B} (c : M A) (k : A -> M B) : M B :=
  fun m =>
    match c m with
    | (Returned a, m') => k a m'
    | (Thrown e, m') => (Thrown e, m')
    | (Undefined, m') => (Undefined, m')
    | (OutOfFuel, m') => (OutOfFuel, m')
    end.

Definition get_ctr : M counter := fun m => (Returned (ctr m), m).

Definition put_ctr (c : counter) : M unit :=
  fun m => (Returned tt, {| ctr := c; world := world m; trace := trace m |}).

(** A system call. *)
Definition sys {A} (f : W -> A * W) : M A :=
  fun m =>
    let '(a, w) := f (world m) in
    (Returned a, {| ctr := ctr m; world := w; trace := trace m |}).

(** [throw std::system_error(errno, std::system_category())]. *)
Definition throw_errno {A} : M A :=
  fun m => (Thrown (sys_errno (world m)), m).

Definition undefined {A} : M A := fun m => (Undefined, m).

Definition out_of_fuel {A} : M A := fun m => (OutOfFuel, m).

(** [v[i]] on a vector. *)
Definition at_index {A} (v : list A) (i : nat) : M A :=
  match v !! i with
  | Some x => ret x
  | None => undefined
  end.

Definition when (b : bool) (c : M unit) : M unit :=
  if b then c else ret tt.

(** A loop over the elements of a list, in order. *)
Fixpoint for_each {A} (l : list A) (body : A -> M unit) : M unit :=
  match l with
  | [] => ret tt
  | x :: l' => bind (body x) (fun _ => for_each l' body)
  end.

End Methods.

Arguments machine W : clear implicits.
Arguments M W A : clear implicits.

Declare Scope monad_scope.
Delimit Scope monad_scope with monad.
Notation "x <- c ;; k" := (bind c (fun x => k))
  (at level 20, c at level 99, k at level 200, only parsing) : monad_scope.
Notation "' p <- c ;; k" := (bind c (fun x => match x with p => k end))
  (at level 20, p pattern, c at level 99, k at level 200, only parsing)
  : monad_scope.
Notation "c ;; k" := (bind c (fun _ => k))
  (at level 100, k at level 200, right associativity, only parsing)
  : monad_scope.
Open Scope monad_scope.

Section Methods.
Context {W : Type} {K : Kernel W}.

(** The attribute [init_event] fills in for an event. *)
Definition attr_of (type config : Z) : perf_event_attr :=
  {| pe_type := type;
     pe_size := sizeof_perf_event_attr;
     pe_config := config;
     pe_disabled := 1;
     pe_exclude_kernel := 1;
     pe_exclude_hv := 0 |}.

(** [perf_event_open] returns a [long], which [init_event] stores in an
    [int]. *)
Definition init_event (type config : Z) : M W unit :=
  let pe := attr_of type config in
  c <- get_ctr ;;
  let group := match m_fds c with [] => -1 | fd0 :: _ => fd0 end in
  r <- sys (sys_perf_event_open pe 0 (-1) group 0) ;;
  let fd := wrap_int r in
  if -1 <? fd then
    put_ctr {| m_events := m_events c ++ [pe];
               m_fds := m_fds c ++ [fd];
               m_counts := m_counts c ++ [0] |}
  else ret tt.

(** The constructor [counter(sw_evts, hw_evts)], run on [empty]. *)
Definition counter_ctor (sw_evts hw_evts : list Z) : M W unit :=
  for_each sw_evts (fun x => init_event PERF_TYPE_SOFTWARE x) ;;
  for_each hw_evts (fun x => init_event PERF_TYPE_HARDWARE x).

Definition get_counts (c : counter) : list Z := m_counts c.

(** [i < m_fds.size()] compares an [int] with a [size_t]; it is reached with
    [i > 0] only, where the conversion keeps the value. *)
Definition get_status (c : counter) (i : Z) : bool :=
  if (0 <? i) && (i <? Z.of_nat (length (m_fds c))) then
    match m_fds c !! Z.to_nat i with
    | Some fd => -1 <? fd
    | None => false
    end
  else false.

Definition get_counts_size (c : counter) : nat := length (m_counts c).

(** The body of the loop of [start], at index [i]. *)
Definition start_body (i : nat) : M W unit :=
  c <- get_ctr ;;
  fd <- at_index (m_fds c) i ;;
  when (-1 <? fd)
    (r <- sys (sys_ioctl fd PERF_EVENT_IOC_RESET 0) ;;
     when (r <? 0) throw_errno ;;
     r <- sys (sys_ioctl fd PERF_EVENT_IOC_ENABLE 0) ;;
     when (r <? 0) throw_errno) ;;
  c <- get_ctr ;;
  _ <- at_index (m_counts c) i ;;
  put_ctr {| m_events := m_events c;
             m_fds := m_fds c;
             m_counts := <[i := 0]> (m_counts c) |}.

(** [for (int i = 0; i < m_fds.size(); ++i)]: the body, once per index of
    [m_fds] (the vector keeps its size during the loop). *)
Definition start : M W unit :=
  c <- get_ctr ;;
  for_each (seq 0 (length (m_fds c))) start_body.

(** The body of the loop of [stop], at index [i]. *)
Definition stop_body (i : nat) : M W unit :=
  c <- get_ctr ;;
  fd <- at_index (m_fds c) i ;;
  when (-1 <? fd)
    (r <- sys (sys_ioctl fd PERF_EVENT_IOC_DISABLE 0) ;;
     when (r <? 0) throw_errno ;;
     c <- get_ctr ;;
     buf <- at_index (m_counts c) i ;;
     '(r, v) <- sys (sys_read fd buf) ;;
     put_ctr {| m_events := m_events c;
                m_fds := m_fds c;
                m_counts := <[i := v]> (m_counts c) |} ;;
     when (r <? 0) throw_errno).

Definition stop : M W unit :=
  c <- get_ctr ;;
  for_each (seq 0 (length (m_fds c))) stop_body.

(** ** Notions the statements about the counter use *)

(** Two counters with the same events and descriptors and as many counts. *)
Definition same_shape (c c' : counter) : Prop :=
  m_events c' = m_events c /\ m_fds c' = m_fds c /\
  length (m_counts c') = length (m_counts c).

(** What a method of the counter leaves as it is: the events, the
    descriptors, the number of counts, and the trace. *)
Definition frame (m m' : machine W) : Prop :=
  same_shape (ctr m) (ctr m') /\ trace m' = trace m.

(** The events a constructor call requests, in order. *)
Definition requests (sw_evts hw_evts : list Z) : list (Z * Z) :=
  map (pair PERF_TYPE_SOFTWARE) sw_evts ++ map (pair PERF_TYPE_HARDWARE) hw_evts.

(** The channels that open when [reqs] are requested one after the other in
    world [w], [fds] being the descriptors opened before: each with its
    attribute and its descriptor, in the order they opened. The group passed
    to the kernel is the first descriptor opened, if any. *)
Fixpoint opened (reqs : list (Z * Z)) (fds : list Z) (w : W)
    : list (perf_event_attr * Z) :=
  match reqs with
  | [] => []
  | (type, config) :: reqs' =>
      let group := match fds with [] => -1 | fd0 :: _ => fd0 end in
      let '(r, w') :=
        sys_perf_event_open (attr_of type config) 0 (-1) group 0 w in
      if -1 <? wrap_int r then
        (attr_of type config, wrap_int r)
          :: opened reqs' (fds ++ [wrap_int r]) w'
      else opened reqs' fds w'
  end.

(** The machine states a counter goes through: created with three empty
    vectors, it runs [init_event] for each event its constructor requests,
    and is then started and stopped any number of times (whatever the
    outcome of each call), the rest of the program changing the world and
    the trace in between. [reachable ops m]: [m] is such a state, [ops]
    being the channels opened so far, in the order they opened. *)
Inductive reachable : list (perf_event_attr * Z) -> machine W -> Prop :=
| reach_new m :
    ctr m = empty -> reachable [] m
| reach_init ops type config m r m' :
    reachable ops m ->
    init_event type config m = (r, m') ->
    reachable (ops ++ opened [(type, config)] (m_fds (ctr m)) (world m)) m'
| reach_start ops m r m' :
    reachable ops m -> start m = (r, m') -> reachable ops m'
| reach_stop ops m r m' :
    reachable ops m -> stop m = (r, m') -> reachable ops m'
| reach_env ops m w tr :
    reachable ops m ->
    reachable ops {| ctr := ctr m; world := w; trace := tr |}.

(** No control operation on a channel fails: every ioctl and every read
    returns a non-negative value. *)
Definition control_ok : Prop :=
  (forall fd req arg w, 0 <= (sys_ioctl fd req arg w).1) /\
  (forall fd buf w, 0 <= (sys_read fd buf w).1.1).

End Methods.

(** The [close] system call, which only the destructor makes. *)
Class Closing (W : Type) := {
  sys_close : Z -> W -> Z * W
}.

Section Destructor.
Context {W : Type} {K : Kernel W} {C : Closing W}.

(** [~counter()]: [::close(m_fds[0])], whose result is not looked at ("we
    only have to close the group fd"). *)
Definition counter_dtor : M W unit :=
  c <- get_ctr ;;
  fd <- at_index (m_fds c) 0 ;;
  _ <- sys (sys_close fd) ;;
  ret tt.

End Destructor.

End Counter.

(** * collector.h *)

Module Collector.
Import Counter.

(** The positions the collector expects the four channels at. *)
Definition PERF_SW_TASK_CLK : Z := 0.
Definition PERF_SW_CPU_CLK : Z := 1.
Definition PERF_HW_INSTR_CTR : Z := 2.
Definition PERF_HW_CYCLES_CLK : Z := 3.

(** The data members of a collector other than [m_counter], which lives in
    the machine state. *)
Record collector := {
  m_ctr_idx : Z;
  m_alpha : float;
  m_beta_min : float;
  m_min_incr : Z;
  m_max_incr : Z;
  m_max_rounds : Z;
  m_n_init : Z
}.

(** The local variables of [collect_for_input_size]. *)
Record locals := {
  n : Z;
  sum : float;
  L_hat : Z;
  n_tot : Z;
  beta : float;
  xbar : float;
  lam_hat : float;
  fac : float
}.

Section Methods.
Context {W : Type} {K : Kernel W} {P : Platform}.

(** A workload callback [start], [stop] or [run], applied to the input size;
    and an updater, applied to [(input_sz, sum, L_hat, n_tot)]. *)
Definition callback : Type := Z -> W -> outcome unit * W.
Definition updater : Type := Z -> float -> Z -> Z -> W -> outcome unit * W.

Definition call (f : W -> outcome unit * W) : M W unit :=
  fun m =>
    let '(r, w) := f (world m) in
    (r, {| ctr := ctr m; world := w; trace := trace m |}).

Definition emit (e : event) : M W unit :=
  fun m =>
    (Returned tt,
     {| ctr := ctr m; world := world m; trace := trace m ++ [e] |}).

(** The constructor: [m_counter] is built first, from [Counter.empty]. *)
Definition collector_ctor (alpha beta_min : float)
    (min_incr max_incr max_rounds n_init : Z) : M W collector :=
  put_ctr Counter.empty ;;
  counter_ctor [PERF_COUNT_SW_TASK_CLOCK; PERF_COUNT_SW_CPU_CLOCK]
               [PERF_COUNT_HW_INSTRUCTIONS; PERF_COUNT_HW_REF_CPU_CYCLES] ;;
  c <- get_ctr ;;
  let idx := if get_status c PERF_HW_INSTR_CTR then PERF_HW_INSTR_CTR
             else PERF_SW_TASK_CLK in
  ret {| m_ctr_idx := idx;
         m_alpha := alpha;
         m_beta_min := beta_min;
         m_min_incr := min_incr;
         m_max_incr := max_incr;
         m_max_rounds := max_rounds;
         m_n_init := n_init |}.

Definition get_counts (N : Z) (start stop run : callback) : M W (list Z) :=
  call (start N) ;;
  Counter.start ;;
  call (run N) ;;
  Counter.stop ;;
  call (stop N) ;;
  c <- get_ctr ;;
  ret (Counter.get_counts c).

(** [v[i]] with an [int] index. *)
Definition at_int_index (v : list Z) (i : Z) : M W Z :=
  if i <? 0 then undefined else at_index v (Z.to_nat i).

(** What one trial does to the locals: [sum += cnt] and
    [if (i == 0 || cnt < L_hat) L_hat = cnt], at loop index [i]. *)
Definition absorb (i : Z) (st : locals) (cnt : Z) : locals :=
  {| n := n st;
     sum := (sum st + double_of_Z cnt)%float;
     L_hat := if (i =? 0) || (cnt <? L_hat st) then cnt else L_hat st;
     n_tot := n_tot st;
     beta := beta st;
     xbar := xbar st;
     lam_hat := lam_hat st;
     fac := fac st |}.

(** The body of the inner loop, at loop index [i]. *)
Definition gather_body (c : collector) (input_sz : Z)
    (start stop run : callback) (i : Z) (st : locals) : M W locals :=
  counts <- get_counts input_sz start stop run ;;
  cnt <- at_int_index counts (m_ctr_idx c) ;;
  emit (Trial input_sz cnt) ;;
  ret (absorb i st cnt).

(** [for (int i = 0; i <= n; ++i)], from index [i] on. With [n = INT_MAX]
    the condition holds for every [int], hence the fuel. *)
Fixpoint gather (fuel : nat) (c : collector) (input_sz : Z)
    (start stop run : callback) (i : Z) (st : locals) : M W locals :=
  match fuel with
  | O => out_of_fuel
  | S fuel' =>
      if i <=? n st then
        st' <- gather_body c input_sz start stop run i st ;;
        gather fuel' c input_sz start stop run (wrap_int (i + 1)) st'
      else ret st
  end.

(** "Calculate the beta estimate". *)
Definition estimate (c : collector) (st : locals) : locals :=
  let n_tot' := wrap_int (n_tot st + n st) in
  let xbar' := (sum st / double_of_Z n_tot')%float in
  let lam_hat' := (1 / (xbar' - double_of_Z (L_hat st)))%float in
  let fac' := (double_of_Z n_tot' * lam_hat' * double_of_Z (L_hat st))%float in
  let beta' := (- log (m_alpha c) / fac')%float in
  {| n := n st;
     sum := sum st;
     L_hat := L_hat st;
     n_tot := n_tot';
     beta := beta';
     xbar := xbar';
     lam_hat := lam_hat';
     fac := fac' |}.

(** The new batch size, when the round did not reach [beta_min]. *)
Definition next_batch (c : collector) (st : locals) : locals :=
  let fac' := (lam_hat st * m_beta_min c * double_of_Z (L_hat st))%float in
  let new_n := int_of_double (- log (m_alpha c) / fac')%float in
  let n' :=
    if new_n <? n_tot st then m_min_incr c
    else
      let d := wrap_int (new_n - n_tot st) in
      if m_max_incr c <? d then m_max_incr c
      else if d <? m_min_incr c then m_min_incr c
      else d in
  {| n := n';
     sum := sum st;
     L_hat := L_hat st;
     n_tot := n_tot st;
     beta := beta st;
     xbar := xbar st;
     lam_hat := lam_hat st;
     fac := fac' |}.

(** One iteration of the outer loop; the boolean tells whether it left the
    loop by [break]. *)
Definition round (fuel : nat) (c : collector) (input_sz : Z)
    (start stop run : callback) (st : locals) : M W (locals * bool) :=
  st1 <- gather fuel c input_sz start stop run 0 st ;;
  let st2 := estimate c st1 in
  if (beta st2 <=? m_beta_min c)%float then ret (st2, true)
  else ret (next_batch c st2, false).

(** [for (int i = 0; i < m_max_rounds; ++i)] with [left] iterations to go
    ([i] stays below [m_max_rounds], so [++i] does not wrap). The result
    holds the locals, the loop index and whether the loop was left by
    [break]. *)
Fixpoint rounds (left : nat) (fuel : nat) (c : collector) (input_sz : Z)
    (start stop run : callback) (i : Z) (st : locals)
    : M W (locals * Z * bool) :=
  match left with
  | O => ret (st, i, false)
  | S left' =>
      '(st', brk) <- round fuel c input_sz start stop run st ;;
      if brk : bool then ret (st', i, true)
      else rounds left' fuel c input_sz start stop run (i + 1) st'
  end.

Definition init_locals (c : collector) : locals :=
  {| n := m_n_init c;
     sum := 0;
     L_hat := 0;
     n_tot := 0;
     beta := (m_beta_min c + 1)%float;
     xbar := 0;
     lam_hat := 0;
     fac := 0 |}.

(** The loop of [collect_for_input_size], from the initial locals. *)
Definition run_session (fuel : nat) (c : collector) (input_sz : Z)
    (start stop run : callback) : M W (locals * Z * bool) :=
  rounds (Z.to_nat (m_max_rounds c)) fuel c input_sz start stop run 0
         (init_locals c).

(** The number of rounds a session ran, from its loop index at exit. *)
Definition rounds_run (i : Z) (brk : bool) : Z := if brk then i + 1 else i.

Definition collect_for_input_size (fuel : nat) (c : collector) (input_sz : Z)
    (start stop run : callback) (u : updater) : M W unit :=
  '(st, _, _) <- run_session fuel c input_sz start stop run ;;
  emit (Report input_sz (sum st) (L_hat st) (n_tot st)) ;;
  call (u input_sz (sum st) (L_hat st) (n_tot st)).

(** [for (int i = 0; i < num_runs; ++i, N *= 2)] with [left] iterations to
    go. *)
Fixpoint collect_loop (left : nat) (fuel : nat) (c : collector) (N : Z)
    (start stop run : callback) (u : updater) : M W unit :=
  match left with
  | O => ret tt
  | S left' =>
      collect_for_input_size fuel c N start stop run u ;;
      collect_loop left' fuel c (wrap_int (N * 2)) start stop run u
  end.

Definition collect (fuel : nat) (c : collector) (N num_runs : Z)
    (start stop run : callback) (u : updater) : M W unit :=
  collect_loop (Z.to_nat num_runs) fuel c N start stop run u.

(** ** Notions the statements about the collector use *)

(** The configuration surface: [alpha] and [beta_min] in (0,1),
    [min_incr >= 1], [max_incr >= min_incr], [max_rounds >= 1],
    [n_init >= 1]. *)
Definition valid_config (c : collector) : Prop :=
  (0 <? m_alpha c)%float = true /\ (m_alpha c <? 1)%float = true /\
  (0 <? m_beta_min c)%float = true /\ (m_beta_min c <? 1)%float = true /\
  1 <= m_min_incr c /\ m_min_incr c <= m_max_incr c /\
  1 <= m_max_rounds c /\ 1 <= m_n_init c.

(** The largest [n_tot] a session of [c] can reach is below [INT_MAX]: no
    [int] of the session wraps around. *)
Definition fits_int (c : collector) : Prop :=
  m_n_init c + (m_max_rounds c - 1) * m_max_incr c < INT_MAX.

(** How a session ended: with the error bound met, or with its round budget
    used up and the error bound not met. *)
Definition converged (c : collector) (st : locals) : Prop :=
  (beta st <=? m_beta_min c)%float = true.

Definition exhausted (c : collector) (st : locals) (rounds : Z) : Prop :=
  rounds = m_max_rounds c /\ (beta st <=? m_beta_min c)%float = false.

(** The four channels the constructor requests, and the request list. *)
Definition sw_task_clock : perf_event_attr :=
  attr_of PERF_TYPE_SOFTWARE PERF_COUNT_SW_TASK_CLOCK.
Definition sw_cpu_clock : perf_event_attr :=
  attr_of PERF_TYPE_SOFTWARE PERF_COUNT_SW_CPU_CLOCK.
Definition hw_instructions : perf_event_attr :=
  attr_of PERF_TYPE_HARDWARE PERF_COUNT_HW_INSTRUCTIONS.
Definition hw_ref_cycles : perf_event_attr :=
  attr_of PERF_TYPE_HARDWARE PERF_COUNT_HW_REF_CPU_CYCLES.
Definition requested : list (Z * Z) :=
  requests [PERF_COUNT_SW_TASK_CLOCK; PERF_COUNT_SW_CPU_CLOCK]
           [PERF_COUNT_HW_INSTRUCTIONS; PERF_COUNT_HW_REF_CPU_CYCLES].

(** The channel a collector has selected: the event its index designates
    among the events of the counter. *)
Definition selected (c : collector) (k : counter) : option perf_event_attr :=
  if m_ctr_idx c <? 0 then None else m_events k !! Z.to_nat (m_ctr_idx c).


(** The largest batch size a session of [c] can choose. *)
Definition max_batch (c : collector) : Z :=
  Z.max (m_n_init c) (Z.max (m_min_incr c) (m_max_incr c)).

Definition callback_total (f : callback) : Prop :=
  forall N w, exists w', f N w = (Returned tt, w').

Definition updater_total (u : updater) : Prop :=
  forall N s L k w, exists w', u N s L k w = (Returned tt, w').

(** Callbacks and updaters that return or throw, whatever they are given. *)
Definition callback_exits (f : callback) : Prop :=
  forall N w, exits (f N w).1.

Definition updater_exits (u : updater) : Prop :=
  forall N s L k w, exits (u N s L k w).1.

(** The selected channel index designates an entry of the counts vector,
    which is as long as the vector of descriptors. *)
Definition selected_ok (c : collector) (k : counter) : Prop :=
  length (m_fds k) = length (m_counts k) /\
  0 <= m_ctr_idx c < Z.of_nat (length (m_counts k)).

(** The input sizes of the reports of a trace, in order. *)
Definition report_sizes (tr : list event) : list Z :=
  omap (fun e => match e with Report N _ _ _ => Some N | _ => None end) tr.

(** The floor estimates of the reports of a trace, in order. *)
Definition report_floors (tr : list event) : list Z :=
  omap (fun e => match e with Report _ _ L _ => Some L | _ => None end) tr.

(** The counts of the trials of a trace, in order. *)
Definition trial_counts (tr : list event) : list Z :=
  omap (fun e => match e with Trial _ cnt => Some cnt | _ => None end) tr.

(** [k] input sizes from [N] on, each the double of the one before, in
    [int] arithmetic. *)
Fixpoint doubling (k : nat) (N : Z) : list Z :=
  match k with
  | O => []
  | S k' => N :: doubling k' (wrap_int (N * 2))
  end.

(** The locals after the trials that read [cnts], from loop index [i] on. *)
Fixpoint absorb_all (i : Z) (st : locals) (cnts : list Z) : locals :=
  match cnts with
  | [] => st
  | cnt :: cnts' => absorb_all (wrap_int (i + 1)) (absorb i st cnt) cnts'
  end.

(** [s0] with the counts [cnts] added one after the other, as [double]s. *)
Definition add_counts (cnts : list Z) (s0 : float) : float :=
  fold_left (fun s cnt => (s + double_of_Z cnt)%float) cnts s0.

(** What the trials of input size [N] change, however they end: they keep the
    shape of the counter and append trials of that size to the trace. *)
Definition only_trials (N : Z) (m m' : machine W) : Prop :=
  same_shape (ctr m) (ctr m') /\
  exists cnts, trace m' = trace m ++ map (Trial N) cnts.

(** What one input size leaves in the trace: the trials of its session, then
    its report. *)
Definition session_block (N : Z) (b : list Z * (float * Z * Z)) : list event :=
  map (Trial N) b.1 ++ [Report N b.2.1.1 b.2.1.2 b.2.2].

(** The states in which a session started in machine [m0] is at the head of
    its loop: [at_round i st m] when, [i] rounds having run without a
    [break], the locals are [st] and the machine is [m]. *)
Inductive at_round (fuel : nat) (c : collector) (input_sz : Z)
    (start stop run : callback) (m0 : machine W)
    : Z -> locals -> machine W -> Prop :=
| at_first : at_round fuel c input_sz start stop run m0 0 (init_locals c) m0
| at_next i st m st' m' :
    at_round fuel c input_sz start stop run m0 i st m ->
    i < m_max_rounds c ->
    round fuel c input_sz start stop run st m = (Returned (st', false), m') ->
    at_round fuel c input_sz start stop run m0 (i + 1) st' m'.

End Methods.

End Collector.

(** * A scripted counter source, for running the code on concrete inputs *)

Module Stub.
Import Counter Collector.

(** The world of the scripted source: the counts still to be produced, one
    per timed run; the count of the run in progress; the next free file
    descriptor. *)
Record stub_world := {
  script : list Z;
  current : Z;
  next_fd : Z
}.

(** A kernel that opens the events [avail] accepts, answers every ioctl
    with [ioctl_ret], and reads the count of the last run on every channel. *)
Definition stub_kernel (avail : perf_event_attr -> bool) (ioctl_ret : Z)
    : Kernel stub_world :=
  {| sizeof_perf_event_attr := 128;
     sys_perf_event_open := fun pe _ _ _ _ w =>
       if avail pe then
         (next_fd w,
          {| script := script w; current := current w;
             next_fd := next_fd w + 1 |})
       else (-1, w);
     sys_ioctl := fun _ _ _ w => (ioctl_ret, w);
     sys_read := fun _ _ w => (8, current w, w);
     sys_errno := fun _ => 22 |}.

Definition all_events (pe : perf_event_attr) : bool := true.
Definition no_events (pe : perf_event_attr) : bool := false.
(** Every event but the software cpu clock. *)
Definition no_cpu_clock (pe : perf_event_attr) : bool :=
  negb ((pe_type pe =? PERF_TYPE_SOFTWARE)
        && (pe_config pe =? PERF_COUNT_SW_CPU_CLOCK)).

(** The run under test takes the next scripted count (0 when the script is
    exhausted); setup and teardown do nothing, and the updater only
    returns. *)
Definition stub_run : callback (W := stub_world) :=
  fun _ w =>
    (Returned tt,
     {| script := tl (script w); current := hd 0 (script w);
        next_fd := next_fd w |}).
Definition stub_idle : callback (W := stub_world) :=
  fun _ w => (Returned tt, w).
Definition stub_updater : updater (W := stub_world) :=
  fun _ _ _ _ w => (Returned tt, w).

(** A run under test whose count is [cnt] at every trial. *)
Definition const_run (cnt : Z) : callback (W := stub_world) :=
  fun _ w =>
    (Returned tt,
     {| script := script w; current := cnt; next_fd := next_fd w |}).

Definition boot (counts : list Z) : machine stub_world :=
  {| ctr := Counter.empty;
     world := {| script := counts; current := 0; next_fd := 3 |};
     trace := [] |}.

(** [std::log] at the two arguments the examples use, correctly rounded;
    conversions as on x86-64. *)
Definition log_table (x : float) : float :=
  if (x =? 0.05)%float then (-2.995732273553991)%float
  else if (x =? 0.1)%float then (-2.3025850929940455)%float
  else nan.

Definition x86_64 : Platform :=
  {| log := log_table; cvt_invalid := fun _ => INT_MIN |}.

(** Kernels: one that opens the four channels, one that opens none, and one
    that opens them all and then fails every ioctl. *)
Definition linux : Kernel stub_world := stub_kernel all_events 0.
Definition linux_without_perf : Kernel stub_world := stub_kernel no_events 0.
Definition linux_failing_ioctl : Kernel stub_world :=
  stub_kernel all_events (-1).

(** The machine once the collector's counter is built on [linux], with the
    four channels open, and the collector of a configuration there. *)
Definition ready (counts : list Z) : machine stub_world :=
  {| ctr := {| m_events := [sw_task_clock (K := linux);
                            sw_cpu_clock (K := linux);
                            hw_instructions (K := linux);
                            hw_ref_cycles (K := linux)];
               m_fds := [3; 4; 5; 6];
               m_counts := [0; 0; 0; 0] |};
     world := {| script := counts; current := 0; next_fd := 7 |};
     trace := [] |}.

Definition configured (alpha beta_min : float)
    (min_incr max_incr max_rounds n_init : Z) : collector :=
  {| m_ctr_idx := PERF_HW_INSTR_CTR;
     m_alpha := alpha;
     m_beta_min := beta_min;
     m_min_incr := min_incr;
     m_max_incr := max_incr;
     m_max_rounds := max_rounds;
     m_n_init := n_init |}.

End Stub.

(** * A recording world, to observe the order of the calls *)

Module Recorder.
Import Counter Collector.

(** What the code asks of the kernel and of its callbacks. *)
Inductive action : Type :=
| Open (pe : perf_event_attr) (pid cpu group flags : Z)
| Ioctl (fd req arg : Z)
| Read (fd : Z)
| Close (fd : Z)
| Setup (N : Z)
| Body (N : Z)
| Teardown (N : Z).

(** The world is the list of the actions so far. The kernel opens the events
    [avail] accepts, giving the descriptors 3, 4, ... in turn; its ioctl,
    read and close succeed, and read leaves the buffer as it is. *)
Definition rec_kernel (avail : perf_event_attr -> bool)
    : Kernel (list action) :=
  {| sizeof_perf_event_attr := 128;
     sys_perf_event_open := fun pe pid cpu group flags w =>
       (if avail pe then 3 + Z.of_nat (length w) else -1,
        w ++ [Open pe pid cpu group flags]);
     sys_ioctl := fun fd req arg w => (0, w ++ [Ioctl fd req arg]);
     sys_read := fun fd buf w => (8, buf, w ++ [Read fd]);
     sys_errno := fun _ => 0 |}.

Definition rec_closing : Closing (list action) :=
  {| sys_close := fun fd w => (0, w ++ [Close fd]) |}.

Definition rec_setup : callback (W := list action) :=
  fun N w => (Returned tt, w ++ [Setup N]).
Definition rec_body : callback (W := list action) :=
  fun N w => (Returned tt, w ++ [Body N]).
Definition rec_teardown : callback (W := list action) :=
  fun N w => (Returned tt, w ++ [Teardown N]).

(** A run under test that throws [e]. *)
Definition rec_throwing_body (e : Z) : callback (W := list action) :=
  fun N w => (Thrown e, w ++ [Body N]).

(** The actions [start] and [stop] make on the channels [fds]. *)
Definition start_actions (fds : list Z) : list action :=
  flat_map (fun fd => [Ioctl fd PERF_EVENT_IOC_RESET 0;
                       Ioctl fd PERF_EVENT_IOC_ENABLE 0]) fds.
Definition stop_actions (fds : list Z) : list action :=
  flat_map (fun fd => [Ioctl fd PERF_EVENT_IOC_DISABLE 0; Read fd]) fds.

End Recorder.


(** * Facts *)

Import Counter Collector.

(** Case analysis on every value a straight-line body matches on. *)
Ltac run_body :=
  repeat first
    [ progress simplify_eq/=
    | match goal with
      | |- context [match ?x with _ => _ end] => destruct x eqn:?
      | H : context [match ?x with _ => _ end] |- _ => destruct x eqn:?
      end ].

(** ** Machine arithmetic *)

Lemma wrap_int_id (z : Z) : INT_MIN <= z <= INT_MAX -> wrap_int z = z.
Proof.
  unfold wrap_int, INT_MIN, INT_MAX. intros Hz.
  rewrite Z.mod_small by lia. lia.
Qed.

(** ** The monad *)

Section MonadFacts.
Context {W : Type} {K : Kernel W}.

Lemma bind_returned {A B} (c : M W A) (k : A -> M W B) m a m' :
  c m = (Returned a, m') -> bind c k m = k a m'.
Proof. unfold bind. intros ->. reflexivity. Qed.

Lemma bind_returned_inv {A B} (c : M W A) (k : A -> M W B) m b m2 :
  bind c k m = (Returned b, m2) ->
  exists a m1, c m = (Returned a, m1) /\ k a m1 = (Returned b, m2).
Proof.
  unfold bind. destruct (c m) as [[a| | |] m1]; try discriminate.
  intros Hk. eauto.
Qed.

(** Whatever its outcome, [bind c k] ends in a state [k] ends in after [c]
    returned, or in a state [c] ends in. *)
Lemma bind_any {A B} (c : M W A) (k : A -> M W B) m r m2 :
  bind c k m = (r, m2) ->
  (exists a m1, c m = (Returned a, m1) /\ k a m1 = (r, m2)) \/
  (exists r1, c m = (r1, m2) /\ forall a, r1 <> Returned a).
Proof.
  unfold bind. destruct (c m) as [[a| | |] m1]; intros Hk.
  - left. eauto.
  - right. injection Hk as <- <-. eexists. split; [reflexivity|discriminate].
  - right. injection Hk as <- <-. eexists. split; [reflexivity|discriminate].
  - right. injection Hk as <- <-. eexists. split; [reflexivity|discriminate].
Qed.

(** A relation between machine states that every step of a loop satisfies
    holds across the loop, whatever its outcome. *)
Lemma for_each_rel {A} (R : machine W -> machine W -> Prop)
    (l : list A) (body : A -> M W unit) :
  (forall m, R m m) ->
  (forall m1 m2 m3, R m1 m2 -> R m2 m3 -> R m1 m3) ->
  (forall x m r m', body x m = (r, m') -> R m m') ->
  forall m r m', for_each l body m = (r, m') -> R m m'.
Proof.
  intros Hrefl Htrans Hbody. induction l as [|x l IH]; intros m r m' Hrun.
  - injection Hrun as <- <-. apply Hrefl.
  - simpl in Hrun. apply bind_any in Hrun as [(a & m1 & Hx & Hl)|(r1 & Hx & _)].
    + eapply Htrans; [eapply Hbody, Hx|eapply IH, Hl].
    + eapply Hbody, Hx.
Qed.

(** A loop whose steps all return, under an invariant they keep, returns. *)
Lemma for_each_returns {A} (I : machine W -> Prop)
    (l : list A) (body : A -> M W unit) :
  (forall x m, In x l -> I m ->
     exists m', body x m = (Returned tt, m') /\ I m') ->
  forall m, I m -> exists m', for_each l body m = (Returned tt, m') /\ I m'.
Proof.
  induction l as [|x l IH]; intros Hbody m Hm.
  - exists m. split; [reflexivity|assumption].
  - destruct (Hbody x m) as (m1 & Hx & Hm1); [left; reflexivity|assumption|].
    destruct (IH (fun y m Hy => Hbody y m (or_intror Hy)) m1 Hm1)
      as (m2 & Hl & Hm2).
    exists m2. split; [|assumption].
    simpl. rewrite (bind_returned _ _ _ _ _ Hx). exact Hl.
Qed.

End MonadFacts.

(** ** The counter *)

Section CounterFacts.
Context {W : Type} {K : Kernel W}.

Lemma frame_refl (m : machine W) : frame m m.
Proof. repeat split. Qed.

Lemma frame_trans (m1 m2 m3 : machine W) :
  frame m1 m2 -> frame m2 m3 -> frame m1 m3.
Proof.
  intros ((E1 & F1 & C1) & T1) ((E2 & F2 & C2) & T2).
  repeat split; congruence.
Qed.

Lemma start_body_frame (i : nat) (m : machine W) r m' :
  start_body i m = (r, m') -> frame m m'.
Proof.
  unfold start_body, bind, get_ctr, at_index, when, sys, throw_errno,
    put_ctr, ret, undefined, frame, same_shape.
  intros Hrun. run_body; rewrite ?length_insert; repeat split; reflexivity.
Qed.

Lemma stop_body_frame (i : nat) (m : machine W) r m' :
  stop_body i m = (r, m') -> frame m m'.
Proof.
  unfold stop_body, bind, get_ctr, at_index, when, sys, throw_errno,
    put_ctr, ret, undefined, frame, same_shape.
  intros Hrun. run_body; rewrite ?length_insert; repeat split; reflexivity.
Qed.

Lemma start_frame (m : machine W) r m' : start m = (r, m') -> frame m m'.
Proof.
  unfold start, bind, get_ctr. apply for_each_rel.
  - apply frame_refl.
  - apply frame_trans.
  - intros x; apply start_body_frame.
Qed.

Lemma stop_frame (m : machine W) r m' : stop m = (r, m') -> frame m m'.
Proof.
  unfold stop, bind, get_ctr. apply for_each_rel.
  - apply frame_refl.
  - apply frame_trans.
  - intros x; apply stop_body_frame.
Qed.

End CounterFacts.

Section ConstructorFacts.
Context {W : Type} {K : Kernel W}.

Lemma for_each_app {A} (l1 l2 : list A) (body : A -> M W unit) m :
  for_each (l1 ++ l2) body m =
  bind (for_each l1 body) (fun _ => for_each l2 body) m.
Proof.
  revert m. induction l1 as [|x l1 IH]; intros m; simpl.
  - reflexivity.
  - unfold bind in *. destruct (body x m) as [[[]| | |] m1]; try reflexivity.
    apply IH.
Qed.

Lemma for_each_map {A B} (f : A -> B) (l : list A) (body : B -> M W unit) m :
  for_each (map f l) body m = for_each l (fun x => body (f x)) m.
Proof.
  revert m. induction l as [|x l IH]; intros m; simpl.
  - reflexivity.
  - unfold bind. destruct (body (f x) m) as [[[]| | |] m1]; try reflexivity.
    apply IH.
Qed.

(** The constructor requests its events one after the other. *)
Lemma counter_ctor_requests (sw_evts hw_evts : list Z) (m : machine W) :
  counter_ctor sw_evts hw_evts m =
  for_each (requests sw_evts hw_evts) (fun p => init_event p.1 p.2) m.
Proof.
  unfold counter_ctor, requests. rewrite for_each_app.
  unfold bind. rewrite !for_each_map. simpl.
  destruct (for_each sw_evts _ m) as [[[]| | |] m1]; try reflexivity.
  rewrite for_each_map. reflexivity.
Qed.

(** Requesting events always returns, and appends to the three vectors one
    entry per channel that opened. *)
Lemma init_events_opened (reqs : list (Z * Z)) (m : machine W) :
  exists m',
    for_each reqs (fun p => init_event p.1 p.2) m = (Returned tt, m') /\
    trace m' = trace m /\
    let ops := opened reqs (m_fds (ctr m)) (world m) in
    m_events (ctr m') = m_events (ctr m) ++ ops.*1 /\
    m_fds (ctr m') = m_fds (ctr m) ++ ops.*2 /\
    m_counts (ctr m') = m_counts (ctr m) ++ map (fun _ => 0) ops.
Proof.
  revert m. induction reqs as [|[type config] reqs IH]; intros m.
  - exists m. simpl. rewrite !app_nil_r. repeat split.
  - simpl. unfold bind, init_event at 1, bind, get_ctr, sys. simpl.
    destruct (sys_perf_event_open _ 0 (-1) _ 0 (world m)) as [r w'] eqn:Hopen.
    destruct (-1 <? wrap_int r) eqn:Hfd; simpl.
    + edestruct IH as (m' & Hrun & Htr & Hev & Hfds & Hcnt).
      exists m'. split; [exact Hrun|]. simpl in *.
      rewrite Hev, Hfds, Hcnt, <- !app_assoc. repeat split; assumption.
    + edestruct IH as (m' & Hrun & Htr & Hev & Hfds & Hcnt).
      exists m'. split; [exact Hrun|]. simpl in *.
      repeat split; assumption.
Qed.

Lemma opened_fds (reqs : list (Z * Z)) (fds : list Z) (w : W) :
  Forall (fun fd => -1 < fd) (opened reqs fds w).*2.
Proof.
  revert fds w. induction reqs as [|[type config] reqs IH]; intros fds w; simpl.
  - constructor.
  - destruct (sys_perf_event_open _ 0 (-1) _ 0 w) as [r w'].
    destruct (-1 <? wrap_int r) eqn:Hfd; simpl.
    + constructor; [lia|apply IH].
    + apply IH.
Qed.

(** The counter a constructor call leaves. *)
Lemma counter_ctor_opened (sw_evts hw_evts : list Z) (m : machine W) :
  ctr m = Counter.empty ->
  exists m',
    counter_ctor sw_evts hw_evts m = (Returned tt, m') /\
    trace m' = trace m /\
    let ops := opened (requests sw_evts hw_evts) [] (world m) in
    m_events (ctr m') = ops.*1 /\
    m_fds (ctr m') = ops.*2 /\
    m_counts (ctr m') = map (fun _ => 0) ops.
Proof.
  intros Hempty.
  destruct (init_events_opened (requests sw_evts hw_evts) m)
    as (m' & Hrun & Htr & Hev & Hfds & Hcnt).
  exists m'. rewrite counter_ctor_requests. rewrite Hempty in *. simpl in *.
  repeat split; assumption.
Qed.

(** One [init_event]: it returns, and appends to the three vectors one
    entry if the channel opened, none otherwise. *)
Lemma init_event_opened (type config : Z) (m : machine W) r m' :
  init_event type config m = (r, m') ->
  r = Returned tt /\
  trace m' = trace m /\
  world m' = (sys_perf_event_open (attr_of type config) 0 (-1)
                (match m_fds (ctr m) with [] => -1 | fd0 :: _ => fd0 end) 0
                (world m)).2 /\
  let ops := opened [(type, config)] (m_fds (ctr m)) (world m) in
  m_events (ctr m') = m_events (ctr m) ++ ops.*1 /\
  m_fds (ctr m') = m_fds (ctr m) ++ ops.*2 /\
  m_counts (ctr m') = m_counts (ctr m) ++ map (fun _ => 0) ops.
Proof.
  unfold init_event, bind, get_ctr, sys, put_ctr, ret. simpl.
  destruct (sys_perf_event_open _ 0 (-1) _ 0 (world m)) as [r0 w'].
  destruct (-1 <? wrap_int r0); intros [= <- <-]; simpl;
    rewrite ?app_nil_r; repeat split.
Qed.

Lemma opened_cons (type config : Z) (reqs : list (Z * Z)) (fds : list Z)
    (w : W) :
  opened ((type, config) :: reqs) fds w
  = opened [(type, config)] fds w
    ++ opened reqs (fds ++ (opened [(type, config)] fds w).*2)
         (sys_perf_event_open (attr_of type config) 0 (-1)
            (match fds with [] => -1 | fd0 :: _ => fd0 end) 0 w).2.
Proof.
  simpl. destruct (sys_perf_event_open _ 0 (-1) _ 0 w) as [r w'].
  destruct (-1 <? wrap_int r); simpl; rewrite ?app_nil_r; reflexivity.
Qed.

(** What holds of every state a counter goes through. *)
Lemma reachable_inv (ops : list (perf_event_attr * Z)) (m : machine W) :
  reachable ops m ->
  m_events (ctr m) = ops.*1 /\
  m_fds (ctr m) = ops.*2 /\
  length (m_counts (ctr m)) = length ops /\
  Forall (fun fd => -1 < fd) ops.*2.
Proof.
  induction 1 as [m Hempty
                 |ops type config m r m' _ IH Hrun
                 |ops m r m' _ IH Hrun|ops m r m' _ IH Hrun|ops m w tr _ IH].
  - rewrite Hempty. repeat split. constructor.
  - destruct IH as (Hev & Hfds & Hcnt & Hall).
    apply init_event_opened in Hrun as (_ & _ & _ & Hev' & Hfds' & Hcnt').
    cbv zeta in Hev', Hfds', Hcnt'.
    pose proof (opened_fds [(type, config)] (m_fds (ctr m)) (world m)) as Hall'.
    set (o := opened [(type, config)] (m_fds (ctr m)) (world m)) in *.
    rewrite Hev', Hfds', Hcnt', Hev, Hfds, !fmap_app, !length_app, length_map.
    split_and!; [reflexivity|reflexivity|lia|].
    apply Forall_app. split; [exact Hall|exact Hall'].
  - apply start_frame in Hrun as ((E & F & C) & _).
    destruct IH as (? & ? & ? & ?). split_and!; congruence.
  - apply stop_frame in Hrun as ((E & F & C) & _).
    destruct IH as (? & ? & ? & ?). split_and!; congruence.
  - exact IH.
Qed.

(** Requesting events from a state a counter goes through leads to such a
    state. *)
Lemma reachable_init_events (reqs : list (Z * Z))
    (ops : list (perf_event_attr * Z)) (m : machine W) r m' :
  reachable ops m ->
  for_each reqs (fun p => init_event p.1 p.2) m = (r, m') ->
  reachable (ops ++ opened reqs (m_fds (ctr m)) (world m)) m'.
Proof.
  revert ops m. induction reqs as [|[type config] reqs IH]; intros ops m Hreach Hrun.
  - simpl in Hrun. injection Hrun as <- <-. simpl. rewrite app_nil_r.
    exact Hreach.
  - simpl in Hrun. unfold bind in Hrun.
    destruct (init_event type config m) as [r1 m1] eqn:Hinit.
    pose proof (init_event_opened _ _ _ _ _ Hinit)
      as (-> & _ & Hworld & _ & Hfds & _).
    apply (reach_init _ _ _ _ _ _ Hreach) in Hinit.
    apply (IH _ _ Hinit) in Hrun.
    rewrite opened_cons, app_assoc, <- Hfds, <- Hworld. exact Hrun.
Qed.

(** So does the constructor, from the empty counter. *)
Lemma reachable_ctor (sw_evts hw_evts : list Z) (m : machine W) r m' :
  ctr m = Counter.empty ->
  counter_ctor sw_evts hw_evts m = (r, m') ->
  reachable (opened (requests sw_evts hw_evts) [] (world m)) m'.
Proof.
  intros Hempty Hrun. rewrite counter_ctor_requests in Hrun.
  apply (reachable_init_events _ [] m) in Hrun; [|apply reach_new, Hempty].
  rewrite Hempty in Hrun. exact Hrun.
Qed.

(** On a counter whose descriptors are all greater than -1, the status of
    index [i] tells whether [0 < i < m_fds.size()]. *)
Lemma get_status_bounds (k : counter) (i : Z) :
  Forall (fun fd => -1 < fd) (m_fds k) ->
  get_status k i = (0 <? i) && (i <? Z.of_nat (length (m_fds k))).
Proof.
  intros Hall. unfold get_status.
  destruct ((0 <? i) && (i <? Z.of_nat (length (m_fds k)))) eqn:Hi;
    [|reflexivity].
  apply andb_prop in Hi as (Hi0 & Hi1).
  destruct (m_fds k !! Z.to_nat i) as [fd|] eqn:Hfd.
  - rewrite Forall_lookup in Hall. specialize (Hall _ _ Hfd). simpl in Hall. lia.
  - apply lookup_ge_None in Hfd. lia.
Qed.

(** C10. On every state a counter goes through, the events, descriptors and
    counts vectors have the same length, with one entry per channel that
    opened, in the order the channels opened; every stored descriptor is
    greater than -1; so the counts [get_counts] returns have one entry per
    opened channel, in that order. *)
Theorem counter_vectors_aligned (ops : list (perf_event_attr * Z))
    (m : machine W) :
  reachable ops m ->
  m_events (ctr m) = ops.*1 /\
  m_fds (ctr m) = ops.*2 /\
  length (Counter.get_counts (ctr m)) = length ops /\
  length (m_events (ctr m)) = length (m_fds (ctr m)) /\
  length (m_fds (ctr m)) = length (m_counts (ctr m)) /\
  Forall (fun fd => -1 < fd) (m_fds (ctr m)) /\
  (forall i, is_Some (Counter.get_counts (ctr m) !! i) <-> is_Some (ops !! i)).
Proof.
  intros Hreach.
  apply reachable_inv in Hreach as (Hev & Hfds & Hcnt & Hall).
  unfold Counter.get_counts.
  split_and!; [exact Hev|exact Hfds|exact Hcnt| | | |].
  - rewrite Hev, Hfds, !length_fmap. reflexivity.
  - rewrite Hfds, length_fmap. congruence.
  - rewrite Hfds. exact Hall.
  - intros i. rewrite !lookup_lt_is_Some. lia.
Qed.

(** C6, where it fails. On every state a counter goes through with at least
    one channel opened, the first channel is usable (its descriptor is
    stored and greater than -1) and yet its status is [false]: [get_status]
    is [true] exactly at the indexes from 1 up to the number of opened
    channels, 0 excluded. *)
Theorem get_status_first_channel (ops : list (perf_event_attr * Z))
    (m : machine W) :
  reachable ops m ->
  ops <> [] ->
  (exists fd, m_fds (ctr m) !! 0%nat = Some fd /\ -1 < fd) /\
  get_status (ctr m) 0 = false /\
  (forall i, get_status (ctr m) i = true <-> 0 < i < Z.of_nat (length ops)).
Proof.
  intros Hreach Hne.
  apply reachable_inv in Hreach as (_ & Hfds & _ & Hall).
  rewrite <- Hfds in Hall. split; [|split].
  - destruct ops as [|[pe fd] ops]; [congruence|].
    rewrite Hfds in *. exists fd. split; [reflexivity|].
    apply Forall_inv in Hall. exact Hall.
  - reflexivity.
  - intros i. rewrite (get_status_bounds _ _ Hall), Hfds, length_fmap.
    rewrite andb_true_iff. lia.
Qed.

End ConstructorFacts.

(** ** The collector: one trial, one batch *)

Section TrialFacts.
Context {W : Type} {K : Kernel W} {P : Platform}.
Variables (c : collector) (input_sz : Z) (start stop run : callback (W := W)).

Lemma call_returned (f : W -> outcome unit * W) (m : machine W) a m' :
  call f m = (Returned a, m') -> frame m m'.
Proof.
  unfold call. destruct (f (world m)) as [r w]. intros [= -> <-].
  repeat split.
Qed.

Lemma get_counts_returned (m : machine W) counts m' :
  Collector.get_counts input_sz start stop run m = (Returned counts, m') ->
  frame m m' /\ counts = m_counts (ctr m').
Proof.
  unfold Collector.get_counts. intros Hrun.
  apply bind_returned_inv in Hrun as (? & m1 & H1 & Hrun).
  apply bind_returned_inv in Hrun as (? & m2 & H2 & Hrun).
  apply bind_returned_inv in Hrun as (? & m3 & H3 & Hrun).
  apply bind_returned_inv in Hrun as (? & m4 & H4 & Hrun).
  apply bind_returned_inv in Hrun as (? & m5 & H5 & Hrun).
  unfold bind, get_ctr, ret in Hrun. injection Hrun as <- <-.
  apply call_returned in H1, H3, H5.
  apply start_frame in H2. apply stop_frame in H4.
  split; [|reflexivity].
  repeat (eapply frame_trans; [eassumption|]). apply frame_refl.
Qed.

Lemma gather_body_returned (i : Z) (st : locals) (m : machine W) st' m' :
  gather_body c input_sz start stop run i st m = (Returned st', m') ->
  same_shape (ctr m) (ctr m') /\
  exists cnt, st' = absorb i st cnt /\
              trace m' = trace m ++ [Trial input_sz cnt].
Proof.
  unfold gather_body. intros Hrun.
  apply bind_returned_inv in Hrun as (counts & m1 & H1 & Hrun).
  apply bind_returned_inv in Hrun as (cnt & m2 & H2 & Hrun).
  apply get_counts_returned in H1 as (((E & F & C) & T) & _).
  unfold at_int_index, at_index, undefined, ret in H2.
  assert (m2 = m1) as -> by (run_body; reflexivity).
  unfold bind, emit, ret in Hrun. injection Hrun as <- <-. simpl.
  split; [repeat split; assumption|].
  exists cnt. rewrite T. split; reflexivity.
Qed.

Lemma absorb_all_n (i : Z) (st : locals) (cnts : list Z) :
  n (absorb_all i st cnts) = n st.
Proof. revert i st. induction cnts as [|cnt cnts IH]; intros; simpl; [|rewrite IH]; reflexivity. Qed.

Lemma absorb_all_n_tot (i : Z) (st : locals) (cnts : list Z) :
  n_tot (absorb_all i st cnts) = n_tot st.
Proof. revert i st. induction cnts as [|cnt cnts IH]; intros; simpl; [|rewrite IH]; reflexivity. Qed.

Lemma absorb_all_sum (i : Z) (st : locals) (cnts : list Z) :
  sum (absorb_all i st cnts) = add_counts cnts (sum st).
Proof.
  revert i st. induction cnts as [|cnt cnts IH]; intros; simpl; [|rewrite IH]; reflexivity.
Qed.

(** After its first trial a batch only lowers [L_hat]... *)
Lemma absorb_all_floor (i : Z) (st : locals) (cnts : list Z) :
  1 <= i -> i + Z.of_nat (length cnts) <= INT_MAX ->
  L_hat (absorb_all i st cnts) = fold_left Z.min cnts (L_hat st).
Proof.
  revert i st. induction cnts as [|cnt cnts IH]; intros i st Hi Hlen; simpl.
  - reflexivity.
  - simpl in Hlen. rewrite IH.
    + simpl. replace (i =? 0) with false by lia. simpl.
      destruct (cnt <? L_hat st) eqn:Hlt; f_equal; lia.
    + rewrite wrap_int_id by (unfold INT_MIN; lia). lia.
    + rewrite wrap_int_id by (unfold INT_MIN; lia). lia.
Qed.

(** ... but its first trial overwrites it: after a batch, [L_hat] is the
    minimum of the counts of that batch, whatever it was before. *)
Lemma batch_floor (st : locals) (cnt : Z) (cnts : list Z) :
  Z.of_nat (length cnts) < INT_MAX ->
  L_hat (absorb_all 0 st (cnt :: cnts)) = fold_left Z.min cnts cnt.
Proof.
  intros Hlen. simpl. rewrite absorb_all_floor.
  - reflexivity.
  - rewrite wrap_int_id by (unfold INT_MIN, INT_MAX; lia). lia.
  - rewrite wrap_int_id by (unfold INT_MIN, INT_MAX; lia). lia.
Qed.

(** A batch that returns ran its trials one after the other: [n + 1 - i] of
    them, from loop index [i] on. *)
Lemma gather_returned (fuel : nat) (i : Z) (st : locals) (m : machine W) st' m' :
  gather fuel c input_sz start stop run i st m = (Returned st', m') ->
  same_shape (ctr m) (ctr m') /\
  exists cnts,
    st' = absorb_all i st cnts /\
    trace m' = trace m ++ map (Trial input_sz) cnts /\
    (0 <= i <= n st + 1 -> n st < INT_MAX ->
     Z.of_nat (length cnts) = n st + 1 - i).
Proof.
  revert i st m. induction fuel as [|fuel IH]; intros i st m Hrun; simpl in Hrun.
  - discriminate.
  - destruct (i <=? n st) eqn:Hi.
    + apply bind_returned_inv in Hrun as (st1 & m1 & H1 & Hrun).
      apply gather_body_returned in H1 as (S1 & cnt & -> & T1).
      apply IH in Hrun as (S2 & cnts & -> & T2 & Hlen).
      split.
      { destruct S1 as (? & ? & ?), S2 as (? & ? & ?).
        repeat split; congruence. }
      exists (cnt :: cnts). simpl. split; [reflexivity|].
      split; [rewrite T2, T1, <- app_assoc; reflexivity|].
      intros Hrange Hmax. simpl in Hlen.
      rewrite wrap_int_id in Hlen by (unfold INT_MIN; lia). lia.
    + unfold ret in Hrun. injection Hrun as <- <-.
      split; [repeat split|]. exists []. simpl. rewrite app_nil_r.
      repeat split. lia.
Qed.

End TrialFacts.

(** ** The collector: rounds and sessions *)

Section SessionFacts.
Context {W : Type} {K : Kernel W} {P : Platform}.
Variables (fuel : nat) (c : collector) (input_sz : Z).
Variables (start stop run : callback (W := W)).

(** With [min_incr <= max_incr], the next batch size lies between them. *)
Lemma next_batch_clamped (st : locals) :
  m_min_incr c <= m_max_incr c ->
  m_min_incr c <= n (next_batch c st) <= m_max_incr c.
Proof.
  intros Hle. unfold next_batch. simpl.
  repeat match goal with
         | |- context [if ?b then _ else _] => destruct b eqn:?
         end; lia.
Qed.

(** In any case the next batch size is at most the larger of the two. *)
Lemma next_batch_le (st : locals) :
  n (next_batch c st) <= Z.max (m_min_incr c) (m_max_incr c).
Proof.
  unfold next_batch. simpl.
  repeat match goal with
         | |- context [if ?b then _ else _] => destruct b eqn:?
         end; lia.
Qed.

(** A round that returns: its batch, then the estimate, then either the
    [break] or the next batch size. *)
Lemma round_returned (st : locals) (m : machine W) st' brk m' :
  round fuel c input_sz start stop run st m = (Returned (st', brk), m') ->
  same_shape (ctr m) (ctr m') /\
  exists cnts,
    trace m' = trace m ++ map (Trial input_sz) cnts /\
    (0 <= n st < INT_MAX -> Z.of_nat (length cnts) = n st + 1) /\
    let st2 := estimate c (absorb_all 0 st cnts) in
    (beta st2 <=? m_beta_min c)%float = brk /\
    st' = if brk then st2 else next_batch c st2.
Proof.
  unfold round. intros Hrun.
  apply bind_returned_inv in Hrun as (st1 & m1 & H1 & Hrun).
  apply gather_returned in H1 as (S1 & cnts & -> & T1 & Hlen).
  split.
  { destruct (_ <=? _)%float; injection Hrun as <- <- <-; exact S1. }
  exists cnts. split.
  { destruct (_ <=? _)%float; injection Hrun as <- <- <-; exact T1. }
  split; [intros Hn; rewrite Hlen; lia|].
  simpl. destruct (_ <=? _)%float; injection Hrun as <- <- <-;
    split; reflexivity.
Qed.

(** The floor estimate a round leaves is the minimum of the counts of that
    round alone. *)
Lemma round_floor (st : locals) (m : machine W) st' brk m' :
  0 <= n st < INT_MAX ->
  round fuel c input_sz start stop run st m = (Returned (st', brk), m') ->
  exists cnt cnts,
    trace m' = trace m ++ map (Trial input_sz) (cnt :: cnts) /\
    L_hat st' = fold_left Z.min cnts cnt.
Proof.
  intros Hn Hrun.
  apply round_returned in Hrun as (_ & cnts & T & Hlen & _ & ->).
  specialize (Hlen Hn). destruct cnts as [|cnt cnts]; [simpl in Hlen; lia|].
  exists cnt, cnts. split; [exact T|].
  simpl in Hlen.
  destruct brk; cbn [L_hat estimate next_batch]; apply batch_floor; lia.
Qed.

Local Abbreviation at_round' := (at_round fuel c input_sz start stop run).

(** What holds at the head of the loop, whatever the configuration. *)
Lemma at_round_inv (m0 : machine W) i st m :
  at_round' m0 i st m ->
  0 <= i /\
  same_shape (ctr m0) (ctr m) /\
  (i = 0 -> st = init_locals c /\ m = m0) /\
  (1 <= i -> (beta st <=? m_beta_min c)%float = false) /\
  exists cnts,
    trace m = trace m0 ++ map (Trial input_sz) cnts /\
    sum st = add_counts cnts 0.
Proof.
  induction 1 as [|i st m st' m' _ IH Hi Hrun].
  - split; [lia|]. split; [repeat split|]. split; [auto|]. split; [lia|].
    exists []. rewrite app_nil_r. split; reflexivity.
  - destruct IH as (Hi0 & S0 & _ & _ & cnts & T0 & Hsum).
    apply round_returned in Hrun as (S1 & cnts1 & T1 & _ & Hbeta & ->).
    simpl in Hbeta. split; [lia|]. split.
    { destruct S0 as (? & ? & ?), S1 as (? & ? & ?).
      repeat split; congruence. }
    split; [lia|]. split; [intros _; exact Hbeta|].
    exists (cnts ++ cnts1). rewrite map_app, app_assoc, <- T0. split; [exact T1|].
    simpl. rewrite absorb_all_sum, Hsum. unfold add_counts.
    rewrite fold_left_app. reflexivity.
Qed.

(** What holds at the head of the loop for a valid configuration whose
    totals fit an [int]. *)
Lemma at_round_bounds (m0 : machine W) i st m :
  valid_config c -> fits_int c ->
  at_round' m0 i st m ->
  i <= m_max_rounds c /\
  0 <= n_tot st /\
  1 <= n st /\
  (i < m_max_rounds c -> n_tot st + n st < INT_MAX) /\
  (1 <= i -> m_n_init c <= n_tot st) /\
  exists cnts,
    trace m = trace m0 ++ map (Trial input_sz) cnts /\
    Z.of_nat (length cnts) = n_tot st + i /\
    sum st = add_counts cnts 0.
Proof.
  intros (_ & _ & _ & _ & Hmin & Hminmax & Hrounds & Hinit) Hfits.
  unfold fits_int in Hfits.
  intros Hat.
  enough (i <= m_max_rounds c /\
          (i = 0 /\ st = init_locals c \/
           1 <= i /\ m_min_incr c <= n st <= m_max_incr c /\
           m_n_init c <= n_tot st <= m_n_init c + (i - 1) * m_max_incr c) /\
          exists cnts,
            trace m = trace m0 ++ map (Trial input_sz) cnts /\
            Z.of_nat (length cnts) = n_tot st + i /\
            sum st = add_counts cnts 0) as (Hi & Hcase & Htr).
  { split; [exact Hi|].
    destruct Hcase as [(-> & ->)|(Hi1 & Hn & Htot)]; simpl.
    - split_and!; [lia|lia|nia|lia|exact Htr].
    - split_and!; [lia|lia|nia|lia|exact Htr]. }
  induction Hat as [|i st m st' m' Hat IH Hi Hrun].
  - split; [lia|]. split; [left; split; reflexivity|].
    exists []. rewrite app_nil_r. split_and!; reflexivity.
  - destruct IH as (_ & Hcase & cnts & T0 & Hlen & Hsum).
    apply at_round_inv in Hat as (Hi0 & _).
    apply round_returned in Hrun as (_ & cnts1 & T1 & Hlen1 & _ & ->).
    assert (1 <= n st /\ 0 <= n_tot st /\ n_tot st + n st < INT_MAX /\
            n_tot st + n st <= m_n_init c + i * m_max_incr c /\
            m_n_init c <= n_tot st + n st) as (Hn1 & Htot0 & Hfit & Hup & Hlow).
    { destruct Hcase as [(-> & ->)|(Hi1 & Hn & Htot)]; simpl.
      - split_and!; [lia|lia|nia|nia|lia].
      - split_and!; [lia|lia|nia|nia|lia]. }
    specialize (Hlen1 ltac:(lia)).
    split; [lia|]. split.
    + right. split; [lia|]. split; [apply next_batch_clamped; exact Hminmax|].
      simpl. rewrite absorb_all_n_tot, absorb_all_n.
      rewrite wrap_int_id by (unfold INT_MIN; lia).
      replace (i + 1 - 1) with i by lia. lia.
    + exists (cnts ++ cnts1). rewrite map_app, app_assoc, <- T0.
      split; [exact T1|]. simpl.
      rewrite absorb_all_n_tot, absorb_all_n, absorb_all_sum, Hsum.
      rewrite wrap_int_id by (unfold INT_MIN; lia).
      rewrite length_app. unfold add_counts. rewrite fold_left_app.
      split; [lia|reflexivity].
Qed.

(** A round of such a session: its trials and what it adds to the totals. *)
Lemma round_totals (m0 : machine W) i st m st' brk m' :
  valid_config c -> fits_int c ->
  at_round' m0 i st m ->
  i < m_max_rounds c ->
  round fuel c input_sz start stop run st m = (Returned (st', brk), m') ->
  1 <= n st /\
  n_tot st' = n_tot st + n st /\
  (i = 0 -> n_tot st' = m_n_init c) /\
  exists cnts,
    trace m' = trace m ++ map (Trial input_sz) cnts /\
    Z.of_nat (length cnts) = n st + 1 /\
    sum st' = add_counts cnts (sum st).
Proof.
  intros Hvalid Hfits Hat Hi Hrun.
  pose proof (at_round_bounds _ _ _ _ Hvalid Hfits Hat)
    as (_ & Htot & Hn & Hfit & _).
  specialize (Hfit Hi).
  apply at_round_inv in Hat as (_ & _ & Hinit & _).
  apply round_returned in Hrun as (_ & cnts & T & Hlen & _ & ->).
  assert (n_tot (if brk then estimate c (absorb_all 0 st cnts)
                 else next_batch c (estimate c (absorb_all 0 st cnts)))
          = n_tot st + n st) as ->.
  { destruct brk; simpl; rewrite absorb_all_n_tot, absorb_all_n;
      apply wrap_int_id; unfold INT_MIN; lia. }
  split_and!; [exact Hn|reflexivity| |].
  - intros ->. destruct Hinit as (-> & _); reflexivity.
  - exists cnts. split_and!; [exact T|apply Hlen; lia|].
    destruct brk; simpl; apply absorb_all_sum.
Qed.

(** The loop, run from one of its heads, ends at a later head, or by a
    [break] in a round begun at a later head. *)
Lemma rounds_at_round (m0 : machine W) (left : nat) i st m st' i' brk m' :
  at_round' m0 i st m ->
  i + Z.of_nat left = m_max_rounds c ->
  rounds left fuel c input_sz start stop run i st m
    = (Returned (st', i', brk), m') ->
  if brk then
    i' < m_max_rounds c /\
    exists st1 m1,
      at_round' m0 i' st1 m1 /\
      round fuel c input_sz start stop run st1 m1 = (Returned (st', true), m')
  else i' = m_max_rounds c /\ at_round' m0 i' st' m'.
Proof.
  revert i st m. induction left as [|left IH]; intros i st m Hat Hleft Hrun.
  - simpl in Hrun. injection Hrun as <- <- <- <-. split; [lia|exact Hat].
  - simpl in Hrun.
    apply bind_returned_inv in Hrun as ([st1 brk1] & m1 & Hround & Hrun).
    destruct brk1.
    + injection Hrun as <- <- <- <-. split; [lia|]. eauto.
    + apply IH in Hrun; [exact Hrun| |lia].
      eapply at_next; [exact Hat|lia|exact Hround].
Qed.

(** A session that returns, seen from the heads of its loop. *)
Lemma run_session_at_round (m0 : machine W) st i brk m' :
  0 <= m_max_rounds c ->
  run_session fuel c input_sz start stop run m0 = (Returned (st, i, brk), m') ->
  if brk then
    i < m_max_rounds c /\
    exists st1 m1,
      at_round' m0 i st1 m1 /\
      round fuel c input_sz start stop run st1 m1 = (Returned (st, true), m')
  else i = m_max_rounds c /\ at_round' m0 i st m'.
Proof.
  intros Hrounds Hrun. eapply rounds_at_round; [apply at_first| |exact Hrun].
  lia.
Qed.

End SessionFacts.

(** ** Sessions: totals, trials and endings *)

Section SessionTheorems.
Context {W : Type} {K : Kernel W} {P : Platform}.
Variables (fuel : nat) (input_sz : Z).
Variables (start stop run : callback (W := W)).

(** C3, amended. For a valid configuration whose totals fit an [int], every
    round of a session strictly increases [n_tot], by the batch size [n] of
    the round, which is at least 1; after the first round [n_tot] is
    [n_init]. *)
Theorem n_tot_increases (c : collector) (m0 : machine W) i st m st' brk m' :
  valid_config c -> fits_int c ->
  at_round fuel c input_sz start stop run m0 i st m ->
  i < m_max_rounds c ->
  round fuel c input_sz start stop run st m = (Returned (st', brk), m') ->
  n_tot st < n_tot st' /\
  n_tot st' = n_tot st + n st /\
  1 <= n st /\
  (i = 0 -> n_tot st' = m_n_init c).
Proof.
  intros Hvalid Hfits Hat Hi Hrun.
  destruct (round_totals _ _ _ _ _ _ _ _ _ _ _ _ _ Hvalid Hfits Hat Hi Hrun)
    as (Hn & Htot & Hfirst & _).
  split_and!; [lia|exact Htot|exact Hn|exact Hfirst].
Qed.

(** C7. A session ends either converged ([beta <= beta_min]) or exhausted
    (as many rounds run as [max_rounds], the error bound not met): exactly
    one of the two holds, and no session runs more than [max_rounds]
    rounds. *)
Theorem session_end (c : collector) (m0 : machine W) st i brk m' :
  0 <= m_max_rounds c ->
  run_session fuel c input_sz start stop run m0 = (Returned (st, i, brk), m') ->
  (converged c st /\ ~ exhausted c st (rounds_run i brk) \/
   exhausted c st (rounds_run i brk) /\ ~ converged c st) /\
  rounds_run i brk <= m_max_rounds c.
Proof.
  intros Hrounds Hrun. unfold converged, exhausted.
  apply run_session_at_round in Hrun; [|exact Hrounds]. destruct brk.
  - destruct Hrun as (Hi & st1 & m1 & _ & Hround).
    apply round_returned in Hround as (_ & cnts & _ & _ & Hbeta & ->).
    simpl in Hbeta. simpl. split; [|lia].
    left. split; [exact Hbeta|]. intros (_ & Hno). congruence.
  - destruct Hrun as (-> & Hat). simpl. split; [|lia].
    destruct (beta st <=? m_beta_min c)%float eqn:Hbeta.
    + left. split; [reflexivity|]. intros (_ & Hno). discriminate.
    + right. split; [split; reflexivity|discriminate].
Qed.

(** C9. For a valid configuration whose totals fit an [int]: a round with
    batch size [n] runs exactly [n + 1] trials and adds their [n + 1] counts
    to [sum], while it adds [n] to [n_tot]; so a session runs as many trials
    as its final [n_tot] plus the number of its rounds, and its [sum] is the
    sum of the counts of all of them. *)
Theorem trials_exceed_n_tot (c : collector) (m0 : machine W) :
  valid_config c -> fits_int c ->
  (forall i st m st' brk m',
     at_round fuel c input_sz start stop run m0 i st m ->
     i < m_max_rounds c ->
     round fuel c input_sz start stop run st m = (Returned (st', brk), m') ->
     exists cnts,
       trace m' = trace m ++ map (Trial input_sz) cnts /\
       Z.of_nat (length cnts) = n st + 1 /\
       sum st' = add_counts cnts (sum st) /\
       n_tot st' = n_tot st + n st) /\
  (forall st i brk m',
     run_session fuel c input_sz start stop run m0
       = (Returned (st, i, brk), m') ->
     exists cnts,
       trace m' = trace m0 ++ map (Trial input_sz) cnts /\
       Z.of_nat (length cnts) = n_tot st + rounds_run i brk /\
       sum st = add_counts cnts 0).
Proof.
  intros Hvalid Hfits. split.
  - intros i st m st' brk m' Hat Hi Hrun.
    destruct (round_totals _ _ _ _ _ _ _ _ _ _ _ _ _ Hvalid Hfits Hat Hi Hrun)
      as (_ & Htot & _ & cnts & T & Hlen & Hsum).
    exists cnts. split_and!; assumption.
  - intros st i brk m' Hrun.
    assert (0 <= m_max_rounds c) as Hrounds
      by (destruct Hvalid as (_ & _ & _ & _ & _ & _ & ? & _); lia).
    apply run_session_at_round in Hrun; [|exact Hrounds]. destruct brk.
    + destruct Hrun as (Hi & st1 & m1 & Hat & Hrun).
      destruct (round_totals _ _ _ _ _ _ _ _ _ _ _ _ _ Hvalid Hfits Hat Hi Hrun)
        as (_ & Htot1 & _ & cnts1 & T1 & Hlen1 & Hsum1).
      pose proof (at_round_bounds _ _ _ _ _ _ _ _ _ _ Hvalid Hfits Hat)
        as (_ & _ & _ & _ & _ & cnts & T0 & Hlen & Hsum).
      exists (cnts ++ cnts1). rewrite map_app, app_assoc, <- T0.
      split_and!; [exact T1|rewrite length_app; simpl; lia|].
      rewrite Hsum1, Hsum. unfold add_counts. rewrite fold_left_app.
      reflexivity.
    + destruct Hrun as (-> & Hat).
      pose proof (at_round_bounds _ _ _ _ _ _ _ _ _ _ Hvalid Hfits Hat)
        as (_ & _ & _ & _ & _ & cnts & T0 & Hlen & Hsum).
      exists cnts. simpl. split_and!; [exact T0|exact Hlen|exact Hsum].
Qed.


End SessionTheorems.

(** ** Runs in which nothing fails *)

Section Totality.
Context {W : Type} {K : Kernel W} {P : Platform}.

Lemma start_body_returns (i : nat) (m : machine W) :
  control_ok ->
  (i < length (m_fds (ctr m)))%nat ->
  (i < length (m_counts (ctr m)))%nat ->
  exists m', start_body i m = (Returned tt, m').
Proof.
  intros (Hioctl & _) Hfd Hcnt.
  apply lookup_lt_is_Some in Hfd as (fd & Hfd).
  apply lookup_lt_is_Some in Hcnt as (cnt & Hcnt).
  unfold start_body, bind, get_ctr, at_index, when, sys, throw_errno,
    put_ctr, ret, undefined.
  rewrite Hfd. destruct (-1 <? fd); simpl.
  - pose proof (Hioctl fd PERF_EVENT_IOC_RESET 0 (world m)) as Hr1.
    destruct (sys_ioctl fd PERF_EVENT_IOC_RESET 0 (world m)) as [r1 w1].
    simpl in Hr1. replace (r1 <? 0) with false by lia. simpl.
    pose proof (Hioctl fd PERF_EVENT_IOC_ENABLE 0 w1) as Hr2.
    destruct (sys_ioctl fd PERF_EVENT_IOC_ENABLE 0 w1) as [r2 w2].
    simpl in Hr2. replace (r2 <? 0) with false by lia. simpl.
    rewrite Hcnt. eauto.
  - rewrite Hcnt. eauto.
Qed.

Lemma stop_body_returns (i : nat) (m : machine W) :
  control_ok ->
  (i < length (m_fds (ctr m)))%nat ->
  (i < length (m_counts (ctr m)))%nat ->
  exists m', stop_body i m = (Returned tt, m').
Proof.
  intros (Hioctl & Hread) Hfd Hcnt.
  apply lookup_lt_is_Some in Hfd as (fd & Hfd).
  apply lookup_lt_is_Some in Hcnt as (cnt & Hcnt).
  unfold stop_body, bind, get_ctr, at_index, when, sys, throw_errno,
    put_ctr, ret, undefined.
  rewrite Hfd. destruct (-1 <? fd); simpl; [|eauto].
  pose proof (Hioctl fd PERF_EVENT_IOC_DISABLE 0 (world m)) as Hr1.
  destruct (sys_ioctl fd PERF_EVENT_IOC_DISABLE 0 (world m)) as [r1 w1].
  simpl in Hr1. replace (r1 <? 0) with false by lia. simpl.
  rewrite Hcnt. simpl.
  pose proof (Hread fd cnt w1) as Hr2.
  destruct (sys_read fd cnt w1) as [[r2 v] w2].
  simpl in Hr2. replace (r2 <? 0) with false by lia. simpl. eauto.
Qed.

(** A loop over the channels whose body returns at every index returns. *)
Lemma channels_loop_returns (body : nat -> M W unit) (m : machine W) :
  length (m_fds (ctr m)) = length (m_counts (ctr m)) ->
  (forall i m1 r m2, body i m1 = (r, m2) -> frame m1 m2) ->
  (forall i m1,
     (i < length (m_fds (ctr m1)))%nat ->
     (i < length (m_counts (ctr m1)))%nat ->
     exists m2, body i m1 = (Returned tt, m2)) ->
  exists m',
    for_each (seq 0 (length (m_fds (ctr m)))) body m = (Returned tt, m') /\
    frame m m'.
Proof.
  intros Hlen Hframe Hret.
  apply (for_each_returns (fun m1 => frame m m1)); [|apply frame_refl].
  intros i m1 Hi Hm1. apply in_seq in Hi.
  destruct Hm1 as ((E & F & C) & T).
  destruct (Hret i m1) as (m2 & Hbody); [rewrite F; lia|rewrite C; lia|].
  exists m2. split; [exact Hbody|].
  eapply frame_trans; [|eapply Hframe, Hbody]. repeat split; assumption.
Qed.

Lemma start_returns (m : machine W) :
  control_ok ->
  length (m_fds (ctr m)) = length (m_counts (ctr m)) ->
  exists m', start m = (Returned tt, m') /\ frame m m'.
Proof.
  intros Hok Hlen. unfold start, bind, get_ctr.
  apply channels_loop_returns; [exact Hlen|apply start_body_frame|].
  intros; apply start_body_returns; assumption.
Qed.

Lemma stop_returns (m : machine W) :
  control_ok ->
  length (m_fds (ctr m)) = length (m_counts (ctr m)) ->
  exists m', stop m = (Returned tt, m') /\ frame m m'.
Proof.
  intros Hok Hlen. unfold stop, bind, get_ctr.
  apply channels_loop_returns; [exact Hlen|apply stop_body_frame|].
  intros; apply stop_body_returns; assumption.
Qed.

Variables (c : collector) (start stop run : callback (W := W)).
Hypothesis start_total : callback_total start.
Hypothesis stop_total : callback_total stop.
Hypothesis run_total : callback_total run.
Hypothesis control : control_ok.

Lemma call_returns (f : callback) (N : Z) (m : machine W) :
  callback_total f -> exists m', call (f N) m = (Returned tt, m') /\ frame m m'.
Proof.
  intros Hf. destruct (Hf N (world m)) as (w' & Hw).
  unfold call. rewrite Hw. eexists. split; [reflexivity|]. repeat split.
Qed.

Lemma frame_selected_ok (m m' : machine W) :
  frame m m' -> selected_ok c (ctr m) -> selected_ok c (ctr m').
Proof.
  intros ((E & F & C) & _) (Hlen & Hidx). unfold selected_ok.
  rewrite F, C. split; assumption.
Qed.

Lemma get_counts_returns (N : Z) (m : machine W) :
  length (m_fds (ctr m)) = length (m_counts (ctr m)) ->
  exists m',
    Collector.get_counts N start stop run m
      = (Returned (m_counts (ctr m')), m') /\
    frame m m'.
Proof.
  intros Hlen. unfold Collector.get_counts.
  destruct (call_returns start N m start_total) as (m1 & H1 & F1).
  rewrite (bind_returned _ _ _ _ _ H1).
  assert (length (m_fds (ctr m1)) = length (m_counts (ctr m1))) as Hlen1.
  { destruct F1 as ((_ & F & C) & _). congruence. }
  destruct (start_returns m1 control Hlen1) as (m2 & H2 & F2).
  rewrite (bind_returned _ _ _ _ _ H2).
  destruct (call_returns run N m2 run_total) as (m3 & H3 & F3).
  rewrite (bind_returned _ _ _ _ _ H3).
  assert (length (m_fds (ctr m3)) = length (m_counts (ctr m3))) as Hlen3.
  { destruct F2 as ((_ & F & C) & _), F3 as ((_ & F' & C') & _). congruence. }
  destruct (stop_returns m3 control Hlen3) as (m4 & H4 & F4).
  rewrite (bind_returned _ _ _ _ _ H4).
  destruct (call_returns stop N m4 stop_total) as (m5 & H5 & F5).
  rewrite (bind_returned _ _ _ _ _ H5).
  exists m5. split; [reflexivity|].
  repeat (eapply frame_trans; [eassumption|]). apply frame_refl.
Qed.

Lemma gather_body_returns (N i : Z) (st : locals) (m : machine W) :
  selected_ok c (ctr m) ->
  exists st' m',
    gather_body c N start stop run i st m = (Returned st', m') /\
    n st' = n st /\ selected_ok c (ctr m').
Proof.
  intros Hsel. unfold gather_body.
  destruct (get_counts_returns N m (proj1 Hsel)) as (m1 & H1 & F1).
  rewrite (bind_returned _ _ _ _ _ H1).
  pose proof (frame_selected_ok _ _ F1 Hsel) as (Hlen1 & Hidx1).
  unfold bind at 1, at_int_index, at_index.
  replace (m_ctr_idx c <? 0) with false by lia.
  destruct (lookup_lt_is_Some_2 (m_counts (ctr m1)) (Z.to_nat (m_ctr_idx c)))
    as (cnt & ->); [lia|].
  unfold ret at 1, bind, emit, ret.
  eexists _, _. split; [reflexivity|]. split; [reflexivity|].
  split; assumption.
Qed.

(** With enough fuel, a batch whose size is below [INT_MAX] returns. *)
Lemma gather_returns (fuel : nat) (N i : Z) (st : locals) (m : machine W) :
  selected_ok c (ctr m) ->
  0 <= i -> n st < INT_MAX ->
  n st + 1 - i < Z.of_nat fuel -> (0 < fuel)%nat ->
  exists st' m',
    gather fuel c N start stop run i st m = (Returned st', m') /\
    selected_ok c (ctr m').
Proof.
  revert i st m. induction fuel as [|fuel IH]; intros i st m Hsel Hi Hn Hfuel Hpos.
  - lia.
  - simpl. destruct (i <=? n st) eqn:Hin.
    + destruct (gather_body_returns N i st m Hsel) as (st1 & m1 & H1 & Hn1 & Hsel1).
      rewrite (bind_returned _ _ _ _ _ H1).
      rewrite wrap_int_id by (unfold INT_MIN; lia).
      apply IH; [assumption|lia|lia|lia|lia].
    + eexists _, _. split; [reflexivity|assumption].
Qed.

End Totality.

(** ** The reports of [collect] *)

Section CollectFacts.
Context {W : Type} {K : Kernel W} {P : Platform}.
Variables (fuel : nat) (c : collector).
Variables (start stop run : callback (W := W)) (u : updater (W := W)).

Lemma report_sizes_trials (N : Z) (cnts : list Z) :
  report_sizes (map (Trial N) cnts) = [].
Proof. induction cnts as [|cnt cnts IH]; [reflexivity|exact IH]. Qed.

Lemma report_sizes_session (tr : list event) (N : Z) (cnts : list Z) s L k :
  report_sizes (tr ++ map (Trial N) cnts ++ [Report N s L k])
  = report_sizes tr ++ [N].
Proof.
  unfold report_sizes. rewrite !omap_app.
  fold (report_sizes (map (Trial N) cnts)). rewrite report_sizes_trials.
  reflexivity.
Qed.

(** The trials a session that returns has run. *)
Lemma run_session_trace (N : Z) (m : machine W) st i brk m' :
  run_session fuel c N start stop run m = (Returned (st, i, brk), m') ->
  same_shape (ctr m) (ctr m') /\
  exists cnts, trace m' = trace m ++ map (Trial N) cnts.
Proof.
  intros Hrun. destruct (Z.lt_ge_cases (m_max_rounds c) 0) as [Hneg|Hpos].
  - unfold run_session in Hrun. rewrite Z2Nat.nonpos in Hrun by lia.
    simpl in Hrun. injection Hrun as <- <- <- <-.
    split; [repeat split|]. exists []. rewrite app_nil_r. reflexivity.
  - apply run_session_at_round in Hrun; [|exact Hpos]. destruct brk.
    + destruct Hrun as (_ & st1 & m1 & Hat & Hround).
      apply at_round_inv in Hat as (_ & S0 & _ & _ & cnts & T0 & _).
      apply round_returned in Hround as (S1 & cnts1 & T1 & _).
      split.
      { destruct S0 as (? & ? & ?), S1 as (? & ? & ?).
        repeat split; congruence. }
      exists (cnts ++ cnts1). rewrite map_app, app_assoc, <- T0. exact T1.
    + destruct Hrun as (_ & Hat).
      apply at_round_inv in Hat as (_ & S0 & _ & _ & cnts & T0 & _).
      split; [exact S0|]. exists cnts. exact T0.
Qed.

Hypothesis start_total : callback_total start.
Hypothesis stop_total : callback_total stop.
Hypothesis run_total : callback_total run.
Hypothesis u_total : updater_total u.
Hypothesis control : control_ok.
Hypothesis batch_ends : max_batch c < INT_MAX.
Hypothesis enough_fuel : Z.max 0 (max_batch c + 1) < Z.of_nat fuel.

Lemma round_returns (N : Z) (st : locals) (m : machine W) :
  selected_ok c (ctr m) ->
  n st <= max_batch c ->
  exists st' brk m',
    round fuel c N start stop run st m = (Returned (st', brk), m') /\
    selected_ok c (ctr m') /\ n st' <= max_batch c.
Proof.
  intros Hsel Hn. unfold round.
  destruct (gather_returns c start stop run start_total stop_total run_total
              control fuel N 0 st m Hsel) as (st1 & m1 & H1 & Hsel1);
    [lia|lia|lia|lia|].
  rewrite (bind_returned _ _ _ _ _ H1).
  apply gather_returned in H1 as (_ & cnts & -> & _).
  destruct (_ <=? _)%float.
  - eexists _, _, _. split; [reflexivity|]. split; [assumption|].
    simpl. rewrite absorb_all_n. exact Hn.
  - eexists _, _, _. split; [reflexivity|]. split; [assumption|].
    pose proof (next_batch_le c (estimate c (absorb_all 0 st cnts))).
    unfold max_batch. lia.
Qed.

Lemma rounds_returns (left : nat) (N i : Z) (st : locals) (m : machine W) :
  selected_ok c (ctr m) ->
  n st <= max_batch c ->
  exists r m',
    rounds left fuel c N start stop run i st m = (Returned r, m') /\
    selected_ok c (ctr m').
Proof.
  revert i st m. induction left as [|left IH]; intros i st m Hsel Hn; simpl.
  - eexists _, _. split; [reflexivity|assumption].
  - destruct (round_returns N st m Hsel Hn) as (st1 & brk & m1 & H1 & Hsel1 & Hn1).
    rewrite (bind_returned _ _ _ _ _ H1). destruct brk.
    + eexists _, _. split; [reflexivity|assumption].
    + apply IH; assumption.
Qed.

(** So every session returns, when nothing fails. *)
Lemma run_session_returns (N : Z) (m : machine W) :
  selected_ok c (ctr m) ->
  exists st i brk m',
    run_session fuel c N start stop run m = (Returned (st, i, brk), m') /\
    selected_ok c (ctr m').
Proof.
  intros Hsel. unfold run_session.
  destruct (rounds_returns (Z.to_nat (m_max_rounds c)) N 0 (init_locals c) m Hsel)
    as ([[st i] brk] & m1 & H1 & Hsel1); [unfold max_batch; simpl; lia|].
  exists st, i, brk, m1. split; assumption.
Qed.

(** One input size: the session runs its trials, then the updater receives
    one report. *)
Lemma collect_for_input_size_returns (N : Z) (m : machine W) :
  selected_ok c (ctr m) ->
  exists m',
    collect_for_input_size fuel c N start stop run u m = (Returned tt, m') /\
    selected_ok c (ctr m') /\
    report_sizes (trace m') = report_sizes (trace m) ++ [N].
Proof.
  intros Hsel. unfold collect_for_input_size.
  destruct (run_session_returns N m Hsel) as (st & i & brk & m1 & H1 & Hsel1).
  rewrite (bind_returned _ _ _ _ _ H1).
  apply run_session_trace in H1 as (_ & cnts & T1).
  destruct (u_total N (sum st) (L_hat st) (n_tot st) (world m1)) as (w' & Hu).
  unfold bind, emit, call. simpl. rewrite Hu.
  eexists. split; [reflexivity|]. split; [exact Hsel1|]. simpl.
  rewrite T1, <- app_assoc. apply report_sizes_session.
Qed.

Lemma collect_loop_returns (left : nat) (N : Z) (m : machine W) :
  selected_ok c (ctr m) ->
  exists m',
    collect_loop left fuel c N start stop run u m = (Returned tt, m') /\
    report_sizes (trace m') = report_sizes (trace m) ++ doubling left N.
Proof.
  revert N m. induction left as [|left IH]; intros N m Hsel; simpl.
  - exists m. rewrite app_nil_r. split; reflexivity.
  - destruct (collect_for_input_size_returns N m Hsel) as (m1 & H1 & Hsel1 & T1).
    rewrite (bind_returned _ _ _ _ _ H1).
    destruct (IH (wrap_int (N * 2)) m1 Hsel1) as (m2 & H2 & T2).
    exists m2. split; [exact H2|].
    rewrite T2, T1, <- app_assoc. reflexivity.
Qed.

End CollectFacts.

Lemma doubling_length (k : nat) (N : Z) : length (doubling k N) = k.
Proof. revert N. induction k as [|k IH]; intros N; simpl; [|rewrite IH]; reflexivity. Qed.

(** While the sizes fit an [int], the [i]-th is [N * 2 ^ i]. *)
Lemma doubling_exact (k : nat) (N : Z) :
  (forall i, (i < k)%nat -> INT_MIN <= N * 2 ^ Z.of_nat i <= INT_MAX) ->
  doubling k N = map (fun i => N * 2 ^ Z.of_nat i) (seq 0 k).
Proof.
  revert N. induction k as [|k IH]; intros N Hfit; simpl.
  - reflexivity.
  - rewrite Z.mul_1_r. f_equal.
    destruct k as [|k]; [reflexivity|].
    rewrite wrap_int_id by (specialize (Hfit 1%nat ltac:(lia)); simpl in Hfit; lia).
    rewrite IH.
    + rewrite <- seq_shift, map_map. apply map_ext. intros i.
      rewrite Nat2Z.inj_succ, Z.pow_succ_r by lia. lia.
    + intros i Hi. specialize (Hfit (S i) ltac:(lia)).
      rewrite Nat2Z.inj_succ, Z.pow_succ_r in Hfit by lia. lia.
Qed.

Section CollectTheorem.
Context {W : Type} {K : Kernel W} {P : Platform}.

(** C4, amended. With workload callbacks, an updater and counter control
    operations that do not fail, a selected channel that is an entry of the
    counts vector and batch sizes below [INT_MAX], [collect] returns, given
    enough fuel, and has invoked the updater exactly [num_runs] times, once
    per input size, the sizes being [N] and its successive doubles (in
    [int] arithmetic: [N * 2 ^ i] while this fits an [int]), in that order;
    this whether the sessions converged or not. *)
Theorem collect_reports (fuel : nat) (c : collector) (N num_runs : Z)
    (start stop run : callback (W := W)) (u : updater (W := W))
    (m : machine W) :
  callback_total start -> callback_total stop -> callback_total run ->
  updater_total u ->
  control_ok ->
  selected_ok c (ctr m) ->
  max_batch c < INT_MAX ->
  Z.max 0 (max_batch c + 1) < Z.of_nat fuel ->
  exists m',
    collect fuel c N num_runs start stop run u m = (Returned tt, m') /\
    report_sizes (trace m')
      = report_sizes (trace m) ++ doubling (Z.to_nat num_runs) N /\
    length (doubling (Z.to_nat num_runs) N) = Z.to_nat num_runs /\
    ((forall i, (i < Z.to_nat num_runs)%nat ->
                INT_MIN <= N * 2 ^ Z.of_nat i <= INT_MAX) ->
     doubling (Z.to_nat num_runs) N
       = map (fun i => N * 2 ^ Z.of_nat i) (seq 0 (Z.to_nat num_runs))).
Proof.
  intros Hstart Hstop Hrun Hu Hcontrol Hsel Hbatch Hfuel.
  destruct (collect_loop_returns fuel c start stop run u Hstart Hstop Hrun Hu
              Hcontrol Hbatch Hfuel (Z.to_nat num_runs) N m Hsel)
    as (m' & Hret & Htrace).
  exists m'. split; [exact Hret|]. split; [exact Htrace|].
  split; [apply doubling_length|apply doubling_exact].
Qed.

End CollectTheorem.

(** ** The collector's constructor *)

Section CollectorCtorFacts.
Context {W : Type} {K : Kernel W} {P : Platform}.

(** The constructor always returns; it leaves a counter built from the four
    requests and the index 2 or 0 according to [get_status]. *)
Lemma collector_ctor_returns (alpha beta_min : float)
    (min_incr max_incr max_rounds n_init : Z) (m : machine W) :
  exists m',
    collector_ctor alpha beta_min min_incr max_incr max_rounds n_init m
    = (Returned
         {| m_ctr_idx := if get_status (ctr m') PERF_HW_INSTR_CTR
                         then PERF_HW_INSTR_CTR else PERF_SW_TASK_CLK;
            m_alpha := alpha;
            m_beta_min := beta_min;
            m_min_incr := min_incr;
            m_max_incr := max_incr;
            m_max_rounds := max_rounds;
            m_n_init := n_init |}, m') /\
    reachable (opened requested [] (world m)) m' /\
    m_events (ctr m') = (opened requested [] (world m)).*1 /\
    m_fds (ctr m') = (opened requested [] (world m)).*2 /\
    m_counts (ctr m') = map (fun _ => 0) (opened requested [] (world m)).
Proof.
  unfold collector_ctor.
  set (m0 := {| ctr := Counter.empty; world := world m; trace := trace m |}).
  destruct (counter_ctor_opened
              [PERF_COUNT_SW_TASK_CLOCK; PERF_COUNT_SW_CPU_CLOCK]
              [PERF_COUNT_HW_INSTRUCTIONS; PERF_COUNT_HW_REF_CPU_CYCLES]
              m0 eq_refl) as (m' & Hrun & _ & Hev & Hfds & Hcnt).
  exists m'. unfold bind at 1, put_ctr. fold m0.
  rewrite (bind_returned _ _ _ _ _ Hrun).
  split; [reflexivity|]. split.
  - exact (reachable_ctor _ _ m0 _ _ eq_refl Hrun).
  - repeat split; assumption.
Qed.


(** When at least one channel opened, the index the constructor selects
    designates an entry of the counts vector. *)
Lemma collector_ctor_selected_ok (alpha beta_min : float)
    (min_incr max_incr max_rounds n_init : Z) (m : machine W) c m' :
  collector_ctor alpha beta_min min_incr max_incr max_rounds n_init m
    = (Returned c, m') ->
  opened requested [] (world m) <> [] ->
  selected_ok c (ctr m').
Proof.
  intros Hrun Hne.
  destruct (collector_ctor_returns alpha beta_min min_incr max_incr max_rounds
              n_init m) as (m1 & Hrun1 & Hreach & _ & Hfds & Hcnt).
  rewrite Hrun in Hrun1. injection Hrun1 as -> ->.
  apply reachable_inv in Hreach as (_ & _ & _ & Hall). rewrite <- Hfds in Hall.
  unfold selected_ok. cbn [m_ctr_idx].
  rewrite (get_status_bounds _ _ Hall), Hfds, Hcnt, length_fmap, length_map.
  destruct (opened requested [] (world m)) as [|op ops]; [congruence|].
  split; [reflexivity|].
  destruct ((0 <? PERF_HW_INSTR_CTR)
            && (PERF_HW_INSTR_CTR <? Z.of_nat (length (op :: ops)))) eqn:Hi;
    unfold PERF_HW_INSTR_CTR, PERF_SW_TASK_CLK in *; simpl length in *;
    [apply andb_prop in Hi as (_ & Hi); apply Z.ltb_lt in Hi|]; lia.
Qed.

End CollectorCtorFacts.

Section CollectorCtorTheorem.
Context {W : Type} {K : Kernel W} {P : Platform}.


End CollectorCtorTheorem.

(** ** The counter: construction, control and destruction *)

Section CounterLife.
Context {W : Type} {K : Kernel W}.


(** What one step of [start] does when it returns. *)
Lemma start_body_returned (i : nat) (m : machine W) m' :
  start_body i m = (Returned tt, m') ->
  m_events (ctr m') = m_events (ctr m) /\
  m_fds (ctr m') = m_fds (ctr m) /\
  m_counts (ctr m') = <[i := 0]> (m_counts (ctr m)) /\
  trace m' = trace m.
Proof.
  unfold start_body, bind, get_ctr, at_index, when, sys, throw_errno,
    put_ctr, ret, undefined.
  intros Hrun. run_body; repeat split; reflexivity.
Qed.

(** A loop over the indexes [a, a + len) that returns has kept an invariant
    its steps carry from one index to the next. *)
Lemma for_each_seq_inv (I : nat -> machine W -> Prop)
    (body : nat -> M W unit) (len a : nat) (m m' : machine W) :
  (forall i m1 m2, (a <= i < a + len)%nat -> I i m1 ->
     body i m1 = (Returned tt, m2) -> I (S i) m2) ->
  I a m ->
  for_each (seq a len) body m = (Returned tt, m') ->
  I (a + len)%nat m'.
Proof.
  revert a m. induction len as [|len IH]; intros a m Hstep Ha Hrun.
  - simpl in Hrun. injection Hrun as <-. rewrite Nat.add_0_r. exact Ha.
  - simpl in Hrun. apply bind_returned_inv in Hrun as ([] & m1 & H1 & Hrun).
    replace (a + S len)%nat with (S a + len)%nat by lia.
    eapply IH; [|eapply Hstep; [|exact Ha|exact H1]; lia|exact Hrun].
    intros i m2 m3 Hi. apply Hstep. lia.
Qed.

(** X2. On a counter with as many descriptors as counts, a [start] that
    returns has set every count to 0, and has changed neither the events nor
    the descriptors nor the trace. *)
Theorem start_zeroes_counts (m m' : machine W) :
  length (m_fds (ctr m)) = length (m_counts (ctr m)) ->
  start m = (Returned tt, m') ->
  Counter.get_counts (ctr m') = replicate (get_counts_size (ctr m)) 0 /\
  m_events (ctr m') = m_events (ctr m) /\
  m_fds (ctr m') = m_fds (ctr m) /\
  trace m' = trace m.
Proof.
  intros Hlen Hrun. unfold start, bind, get_ctr in Hrun.
  apply (for_each_seq_inv
           (fun j m1 =>
              m_events (ctr m1) = m_events (ctr m) /\
              m_fds (ctr m1) = m_fds (ctr m) /\
              trace m1 = trace m /\
              length (m_counts (ctr m1)) = length (m_counts (ctr m)) /\
              forall i, (i < j)%nat -> (i < length (m_counts (ctr m)))%nat ->
                        m_counts (ctr m1) !! i = Some 0)) in Hrun.
  - destruct Hrun as (E & F & T & C & Hzero).
    unfold Counter.get_counts, get_counts_size.
    split_and!; [|exact E|exact F|exact T].
    apply list_eq. intros i.
    destruct (decide (i < length (m_counts (ctr m)))%nat) as [Hi|Hi].
    + rewrite Hzero by lia. symmetry. apply lookup_replicate_2. exact Hi.
    + rewrite (lookup_ge_None_2 (m_counts (ctr m'))) by lia.
      symmetry. apply lookup_replicate_None. lia.
  - intros j m1 m2 Hj (E & F & T & C & Hzero) Hbody.
    apply start_body_returned in Hbody as (E' & F' & C' & T').
    split_and!; [congruence|congruence|congruence| |].
    + rewrite C', length_insert. exact C.
    + intros i Hi Hi'. rewrite C'.
      destruct (decide (i = j)) as [->|Hne].
      * apply list_lookup_insert_eq. lia.
      * rewrite list_lookup_insert_ne by congruence. apply Hzero; lia.
  - split_and!; try reflexivity. intros i Hi. lia.
Qed.

(** How one step of [start] or [stop] can end, at an index of both vectors:
    it returns, or throws the [errno] of the world it leaves. *)
Lemma start_body_outcome (i : nat) (m : machine W) r m' :
  (i < length (m_fds (ctr m)))%nat ->
  (i < length (m_counts (ctr m)))%nat ->
  start_body i m = (r, m') ->
  r = Returned tt \/ r = Thrown (sys_errno (world m')).
Proof.
  intros Hfd Hcnt.
  apply lookup_lt_is_Some in Hfd as (fd & Hfd).
  apply lookup_lt_is_Some in Hcnt as (cnt & Hcnt).
  unfold start_body, bind, get_ctr, at_index, when, sys, throw_errno,
    put_ctr, ret, undefined.
  rewrite Hfd. intros Hrun. run_body; auto.
Qed.

Lemma stop_body_outcome (i : nat) (m : machine W) r m' :
  (i < length (m_fds (ctr m)))%nat ->
  (i < length (m_counts (ctr m)))%nat ->
  stop_body i m = (r, m') ->
  r = Returned tt \/ r = Thrown (sys_errno (world m')).
Proof.
  intros Hfd Hcnt.
  apply lookup_lt_is_Some in Hfd as (fd & Hfd).
  apply lookup_lt_is_Some in Hcnt as (cnt & Hcnt).
  unfold stop_body, bind, get_ctr, at_index, when, sys, throw_errno,
    put_ctr, ret, undefined.
  rewrite Hfd. intros Hrun. run_body; auto.
Qed.

(** [bind c k] by the outcome of [c]: a failure of [c] is the failure of the
    whole. *)
Lemma bind_cases {A B} (c : M W A) (k : A -> M W B) m r m2 :
  bind c k m = (r, m2) ->
  (exists a m1, c m = (Returned a, m1) /\ k a m1 = (r, m2)) \/
  (exists e, c m = (Thrown e, m2) /\ r = Thrown e) \/
  (c m = (Undefined, m2) /\ r = Undefined) \/
  (c m = (OutOfFuel, m2) /\ r = OutOfFuel).
Proof.
  unfold bind. destruct (c m) as [[a| | |] m1]; intros Hk.
  - left. eauto.
  - right. left. injection Hk as <- <-. eauto.
  - right. right. left. injection Hk as <- <-. eauto.
  - right. right. right. injection Hk as <- <-. eauto.
Qed.

(** A loop over the channels whose steps end so ends so. *)
Lemma channels_loop_outcome (body : nat -> M W unit) (m : machine W) r m' :
  length (m_fds (ctr m)) = length (m_counts (ctr m)) ->
  (forall i m1 r m2, body i m1 = (r, m2) -> frame m1 m2) ->
  (forall i m1 r m2,
     (i < length (m_fds (ctr m1)))%nat ->
     (i < length (m_counts (ctr m1)))%nat ->
     body i m1 = (r, m2) ->
     r = Returned tt \/ r = Thrown (sys_errno (world m2))) ->
  for_each (seq 0 (length (m_fds (ctr m)))) body m = (r, m') ->
  r = Returned tt \/ r = Thrown (sys_errno (world m')).
Proof.
  intros Hlen Hframe Hout.
  assert (forall l m1 r m2,
            Forall (fun i => (i < length (m_fds (ctr m)))%nat) l ->
            frame m m1 ->
            for_each l body m1 = (r, m2) ->
            r = Returned tt \/ r = Thrown (sys_errno (world m2))) as Hloop.
  { clear r m'. induction l as [|i l IH]; intros m1 r m2 Hl Hm1 Hrun.
    - injection Hrun as <- <-. left. reflexivity.
    - simpl in Hrun. apply Forall_cons in Hl as (Hi & Hl).
      destruct Hm1 as ((E & F & C) & T).
      apply bind_cases in Hrun
        as [(a & m3 & H1 & Hrun)|[(e & H1 & ->)|[(H1 & ->)|(H1 & ->)]]].
      + eapply IH; [exact Hl| |exact Hrun].
        eapply frame_trans; [|eapply Hframe, H1]. repeat split; assumption.
      + apply Hout in H1; [exact H1|rewrite F; lia|rewrite C; lia].
      + apply Hout in H1 as [?|?]; [discriminate|discriminate| |];
          [rewrite F; lia|rewrite C; lia].
      + apply Hout in H1 as [?|?]; [discriminate|discriminate| |];
          [rewrite F; lia|rewrite C; lia]. }
  apply Hloop; [|apply frame_refl].
  apply Forall_forall. intros i Hi. apply elem_of_seq in Hi. lia.
Qed.

(** X3. On a counter with as many descriptors as counts, [start] and [stop]
    end in one of two ways only: they return, or they throw a
    [std::system_error] whose code is the [errno] of the world they leave;
    no vector is indexed out of its bounds. Whatever the outcome, the events,
    the descriptors, the number of counts and the trace are kept. *)
Theorem start_stop_outcomes (m : machine W) r m' :
  length (m_fds (ctr m)) = length (m_counts (ctr m)) ->
  start m = (r, m') \/ stop m = (r, m') ->
  (r = Returned tt \/ r = Thrown (sys_errno (world m'))) /\
  same_shape (ctr m) (ctr m') /\
  trace m' = trace m.
Proof.
  intros Hlen [Hrun|Hrun].
  - split; [|apply (start_frame _ _ _ Hrun)].
    unfold start, bind, get_ctr in Hrun.
    eapply channels_loop_outcome; [exact Hlen| | |exact Hrun].
    + apply start_body_frame.
    + apply start_body_outcome.
  - split; [|apply (stop_frame _ _ _ Hrun)].
    unfold stop, bind, get_ctr in Hrun.
    eapply channels_loop_outcome; [exact Hlen| | |exact Hrun].
    + apply stop_body_frame.
    + apply stop_body_outcome.
Qed.

Context {C : Closing W}.

(** X4. The destructor, on a state a counter goes through: with no channel
    opened it indexes the empty vector of descriptors (undefined behaviour);
    otherwise it returns, having closed the descriptor of the first channel
    that opened, the group leader, and only that one, whatever [close]
    answers; the counter and the trace are as before. *)
Theorem counter_dtor_closes_leader (ops : list (perf_event_attr * Z))
    (m : machine W) :
  reachable ops m ->
  match ops with
  | [] => counter_dtor m = (Undefined, m)
  | (_, fd) :: _ =>
      -1 < fd /\
      counter_dtor m
      = (Returned tt,
         {| ctr := ctr m; world := (sys_close fd (world m)).2;
            trace := trace m |})
  end.
Proof.
  intros Hreach. apply reachable_inv in Hreach as (_ & Hfds & _ & Hall).
  unfold counter_dtor, bind, get_ctr, at_index, sys, ret, undefined.
  rewrite Hfds. destruct ops as [|[pe fd] ops]; simpl.
  - reflexivity.
  - apply Forall_inv in Hall. split; [exact Hall|].
    destruct (sys_close fd (world m)); reflexivity.
Qed.

End CounterLife.

(** ** The collector, whatever the outcome *)

Section CollectorOutcomes.
Context {W : Type} {K : Kernel W} {P : Platform}.
Variables (fuel : nat) (c : collector).
Variables (start stop run : callback (W := W)) (u : updater (W := W)).

Lemma same_shape_refl (k : counter) : same_shape k k.
Proof. repeat split. Qed.

Lemma same_shape_trans (k1 k2 k3 : counter) :
  same_shape k1 k2 -> same_shape k2 k3 -> same_shape k1 k3.
Proof. intros (? & ? & ?) (? & ? & ?). repeat split; congruence. Qed.

Lemma only_trials_refl (N : Z) (m : machine W) : only_trials N m m.
Proof.
  split; [apply same_shape_refl|]. exists []. rewrite app_nil_r. reflexivity.
Qed.

Lemma only_trials_trans (N : Z) (m1 m2 m3 : machine W) :
  only_trials N m1 m2 -> only_trials N m2 m3 -> only_trials N m1 m3.
Proof.
  intros (S1 & cnts1 & T1) (S2 & cnts2 & T2).
  split; [eapply same_shape_trans; eassumption|].
  exists (cnts1 ++ cnts2). rewrite T2, T1, map_app, app_assoc. reflexivity.
Qed.

Lemma frame_only_trials (N : Z) (m m' : machine W) :
  frame m m' -> only_trials N m m'.
Proof.
  intros (S1 & T1). split; [exact S1|]. exists []. rewrite app_nil_r. exact T1.
Qed.

(** A relation that both parts of a sequence satisfy holds across it. *)
Lemma bind_rel {A B} (R : machine W -> machine W -> Prop)
    (f : M W A) (k : A -> M W B) m r m' :
  (forall m1 m2 m3, R m1 m2 -> R m2 m3 -> R m1 m3) ->
  (forall r1 m1, f m = (r1, m1) -> R m m1) ->
  (forall a m1 r2 m2, k a m1 = (r2, m2) -> R m1 m2) ->
  bind f k m = (r, m') -> R m m'.
Proof.
  intros Htrans Hf Hk Hrun.
  apply bind_any in Hrun as [(a & m1 & H1 & H2)|(r1 & H1 & _)].
  - eapply Htrans; [eapply Hf, H1|eapply Hk, H2].
  - eapply Hf, H1.
Qed.

Lemma call_frame (f : W -> outcome unit * W) (m : machine W) r m' :
  call f m = (r, m') -> frame m m'.
Proof.
  unfold call. destruct (f (world m)) as [r1 w]. intros Hc.
  injection Hc as <- <-. repeat split.
Qed.

(** One timed run changes neither the shape of the counter nor the trace. *)
Lemma get_counts_frame (N : Z) (m : machine W) r m' :
  Collector.get_counts N start stop run m = (r, m') -> frame m m'.
Proof.
  unfold Collector.get_counts.
  repeat (apply bind_rel;
          [apply frame_trans
          |first [ intros ? ?; apply call_frame
                 | intros ? ?; apply start_frame
                 | intros ? ?; apply stop_frame ]
          |intros ? ? ? ?]).
  unfold bind, get_ctr, ret. intros [= <- <-]. apply frame_refl.
Qed.

Lemma gather_body_only_trials (N i : Z) (st : locals) (m : machine W) r m' :
  gather_body c N start stop run i st m = (r, m') -> only_trials N m m'.
Proof.
  unfold gather_body. apply bind_rel.
  - apply only_trials_trans.
  - intros r1 m1 H1. apply frame_only_trials. eapply get_counts_frame, H1.
  - intros counts m1 r2 m2. apply bind_rel.
    + apply only_trials_trans.
    + intros r1 m3. unfold at_int_index, at_index, undefined, ret.
      intros Hidx. assert (m3 = m1) as -> by (run_body; reflexivity).
      apply only_trials_refl.
    + intros cnt m3 r3 m4. unfold bind, emit, ret. intros [= <- <-].
      split; [apply same_shape_refl|]. exists [cnt]. reflexivity.
Qed.

Lemma gather_only_trials (f : nat) (N i : Z) (st : locals)
    (m : machine W) r m' :
  gather f c N start stop run i st m = (r, m') -> only_trials N m m'.
Proof.
  revert i st m r m'. induction f as [|f IH]; intros i st m r m'; simpl.
  - unfold out_of_fuel. intros [= <- <-]. apply only_trials_refl.
  - destruct (i <=? n st).
    + apply bind_rel.
      * apply only_trials_trans.
      * intros r1 m1. apply gather_body_only_trials.
      * intros st1 m1 r2 m2. apply IH.
    + unfold ret. intros [= <- <-]. apply only_trials_refl.
Qed.

Lemma round_only_trials (N : Z) (st : locals) (m : machine W) r m' :
  round fuel c N start stop run st m = (r, m') -> only_trials N m m'.
Proof.
  unfold round. apply bind_rel.
  - apply only_trials_trans.
  - intros r1 m1. apply gather_only_trials.
  - intros st1 m1 r2 m2. unfold ret.
    destruct (_ <=? _)%float; intros [= <- <-]; apply only_trials_refl.
Qed.

Lemma rounds_only_trials (left : nat) (N i : Z) (st : locals)
    (m : machine W) r m' :
  rounds left fuel c N start stop run i st m = (r, m') -> only_trials N m m'.
Proof.
  revert i st m r m'. induction left as [|left IH]; intros i st m r m'; simpl.
  - unfold ret. intros [= <- <-]. apply only_trials_refl.
  - apply bind_rel.
    + apply only_trials_trans.
    + intros r1 m1. apply round_only_trials.
    + intros [st1 brk] m1 r2 m2. destruct brk.
      * unfold ret. intros [= <- <-]. apply only_trials_refl.
      * apply IH.
Qed.

(** The sum a session that returns reports is the sum, in the order they
    ran, of the counts of its trials. *)
Lemma run_session_sum (N : Z) (m : machine W) st i brk m' :
  run_session fuel c N start stop run m = (Returned (st, i, brk), m') ->
  exists cnts,
    trace m' = trace m ++ map (Trial N) cnts /\
    sum st = add_counts cnts 0.
Proof.
  intros Hrun. destruct (Z.lt_ge_cases (m_max_rounds c) 0) as [Hneg|Hpos].
  - unfold run_session in Hrun. rewrite Z2Nat.nonpos in Hrun by lia.
    simpl in Hrun. injection Hrun as <- <- <- <-.
    exists []. rewrite app_nil_r. split; reflexivity.
  - apply run_session_at_round in Hrun; [|exact Hpos]. destruct brk.
    + destruct Hrun as (_ & st1 & m1 & Hat & Hround).
      apply at_round_inv in Hat as (_ & _ & _ & _ & cnts & T0 & Hsum).
      apply round_returned in Hround as (_ & cnts1 & T1 & _ & _ & ->).
      exists (cnts ++ cnts1). rewrite map_app, app_assoc, <- T0.
      split; [exact T1|]. simpl. rewrite absorb_all_sum, Hsum.
      unfold add_counts. rewrite fold_left_app. reflexivity.
    + destruct Hrun as (_ & Hat).
      apply at_round_inv in Hat as (_ & _ & _ & _ & cnts & T0 & Hsum).
      exists cnts. split; assumption.
Qed.

(** One input size, when it returns: the block it leaves in the trace. *)
Lemma collect_for_input_size_block (N : Z) (m : machine W) m' :
  collect_for_input_size fuel c N start stop run u m = (Returned tt, m') ->
  exists b, trace m' = trace m ++ session_block N b /\
            b.2.1.1 = add_counts b.1 0.
Proof.
  unfold collect_for_input_size. intros Hrun.
  apply bind_returned_inv in Hrun as ([[st i] brk] & m1 & H1 & Hrun).
  apply run_session_sum in H1 as (cnts & T1 & Hsum).
  apply bind_returned_inv in Hrun as ([] & m2 & H2 & Hrun).
  apply call_frame in Hrun as (_ & T3).
  unfold emit in H2. injection H2 as <-. simpl in T3.
  exists (cnts, (sum st, L_hat st, n_tot st)). unfold session_block. simpl.
  split; [|exact Hsum]. rewrite T3, T1, <- app_assoc. reflexivity.
Qed.

Lemma collect_loop_blocks (left : nat) (N : Z) (m : machine W) m' :
  collect_loop left fuel c N start stop run u m = (Returned tt, m') ->
  exists blocks,
    length blocks = left /\
    trace m' = trace m
               ++ concat (zip_with session_block (doubling left N) blocks) /\
    Forall (fun b => b.2.1.1 = add_counts b.1 0) blocks.
Proof.
  revert N m. induction left as [|left IH]; intros N m Hrun; simpl in Hrun.
  - injection Hrun as <-. exists []. simpl. rewrite app_nil_r.
    split_and!; [reflexivity|reflexivity|constructor].
  - apply bind_returned_inv in Hrun as ([] & m1 & H1 & Hrun).
    apply collect_for_input_size_block in H1 as (b & T1 & Hb).
    apply IH in Hrun as (blocks & Hlen & T2 & Hall).
    exists (b :: blocks). simpl.
    split_and!; [lia| |constructor; assumption].
    rewrite T2, T1, <- app_assoc. reflexivity.
Qed.

(** One input size, whatever its outcome: trials of that size, then at most
    one report, which is there when it returns. *)
Lemma collect_for_input_size_any (N : Z) (m : machine W) r m' :
  collect_for_input_size fuel c N start stop run u m = (r, m') ->
  same_shape (ctr m) (ctr m') /\
  (report_sizes (trace m') = report_sizes (trace m) /\ r <> Returned tt \/
   report_sizes (trace m') = report_sizes (trace m) ++ [N]).
Proof.
  unfold collect_for_input_size. intros Hrun.
  apply bind_cases in Hrun as [([[st i] brk] & m1 & H1 & Hrun)|Hfail].
  - apply rounds_only_trials in H1 as (S1 & cnts & T1).
    unfold bind at 1, emit in Hrun.
    apply call_frame in Hrun as (S3 & T3). simpl in S3, T3.
    split; [eapply same_shape_trans; eassumption|]. right.
    rewrite T3, T1, <- app_assoc. apply report_sizes_session.
  - assert (exists r1, run_session fuel c N start stop run m = (r1, m') /\
                       r <> Returned tt) as (r1 & H1 & Hne).
    { destruct Hfail as [(e & H1 & ->)|[(H1 & ->)|(H1 & ->)]];
        eexists; (split; [exact H1|discriminate]). }
    apply rounds_only_trials in H1 as (S1 & cnts & T1).
    split; [exact S1|]. left. split; [|exact Hne].
    rewrite T1. unfold report_sizes. rewrite omap_app.
    fold (report_sizes (map (Trial N) cnts)).
    rewrite report_sizes_trials, app_nil_r. reflexivity.
Qed.

Lemma collect_loop_any (left : nat) (N : Z) (m : machine W) r m' :
  collect_loop left fuel c N start stop run u m = (r, m') ->
  same_shape (ctr m) (ctr m') /\
  exists j,
    (j <= left)%nat /\
    report_sizes (trace m')
      = report_sizes (trace m) ++ take j (doubling left N) /\
    (r = Returned tt -> j = left).
Proof.
  revert N m. induction left as [|left IH]; intros N m Hrun; simpl in Hrun.
  - injection Hrun as <- <-. split; [apply same_shape_refl|].
    exists 0%nat. simpl. rewrite app_nil_r. split_and!; reflexivity || lia.
  - apply bind_cases in Hrun
      as [([] & m1 & H1 & Hrun)|Hfail].
    + apply collect_for_input_size_any in H1 as (S1 & [(_ & Hne)|T1]);
        [congruence|].
      apply IH in Hrun as (S2 & j & Hj & T2 & Hret).
      split; [eapply same_shape_trans; eassumption|].
      exists (S j). simpl. split_and!; [lia| |intros Hr; f_equal; auto].
      rewrite T2, T1, <- app_assoc. reflexivity.
    + assert (exists r1, collect_for_input_size fuel c N start stop run u m
                         = (r1, m') /\ r <> Returned tt) as (r1 & H1 & Hne).
      { destruct Hfail as [(e & H1 & ->)|[(H1 & ->)|(H1 & ->)]];
          eexists; (split; [exact H1|discriminate]). }
      apply collect_for_input_size_any in H1 as (S1 & [(T1 & _)|T1]).
      * split; [exact S1|]. exists 0%nat. simpl. rewrite app_nil_r.
        split_and!; [lia|exact T1|congruence].
      * split; [exact S1|]. exists 1%nat. simpl. rewrite take_0.
        split_and!; [lia|exact T1|congruence].
Qed.

(** X5. A [collect] that returns leaves in the trace one block per input
    size, the sizes in doubling order from [N]: the trials of that size, one
    after the other, then its single report; and the sum each report carries
    is the sum, as [double]s and in the order the trials ran, of the counts
    of the trials of its block. This for every configuration. *)
Theorem collect_trace_blocks (N num_runs : Z) (m : machine W) m' :
  collect fuel c N num_runs start stop run u m = (Returned tt, m') ->
  exists blocks,
    length blocks = Z.to_nat num_runs /\
    trace m' = trace m
               ++ concat (zip_with session_block
                            (doubling (Z.to_nat num_runs) N) blocks) /\
    Forall (fun b => b.2.1.1 = add_counts b.1 0) blocks.
Proof. apply collect_loop_blocks. Qed.

(** X6. Whatever its outcome (a return, an exception of a callback or of a
    control operation, undefined behaviour, no fuel), [collect] keeps the
    events, the descriptors and the number of counts of the counter, and the
    reports it has given are those of the first [j] input sizes of the
    doubling sequence, in order, for some [j] up to [num_runs]; [j] is
    [num_runs] when it returns. No size is skipped and none is reported
    twice. *)
Theorem collect_reports_prefix (N num_runs : Z) (m : machine W) r m' :
  collect fuel c N num_runs start stop run u m = (r, m') ->
  same_shape (ctr m) (ctr m') /\
  exists j,
    (j <= Z.to_nat num_runs)%nat /\
    report_sizes (trace m')
      = report_sizes (trace m) ++ take j (doubling (Z.to_nat num_runs) N) /\
    (r = Returned tt -> j = Z.to_nat num_runs).
Proof. apply collect_loop_any. Qed.

End CollectorOutcomes.

(** ** Sessions: cost and floor *)

Section SessionCost.
Context {W : Type} {K : Kernel W} {P : Platform}.
Variables (fuel : nat) (c : collector) (input_sz : Z).
Variables (start stop run : callback (W := W)).

(** After the first round the batch size lies between the two increments,
    and [n_tot] has grown by at most [max_incr] a round. *)
Lemma at_round_upper (m0 : machine W) i st m :
  valid_config c -> fits_int c ->
  at_round fuel c input_sz start stop run m0 i st m ->
  1 <= i ->
  m_min_incr c <= n st <= m_max_incr c /\
  n_tot st <= m_n_init c + (i - 1) * m_max_incr c.
Proof.
  intros Hvalid Hfits Hat.
  induction Hat as [|i st m st' m' Hat IH Hi Hrun]; intros Hi1; [lia|].
  pose proof Hvalid as (_ & _ & _ & _ & Hmin & Hminmax & _ & _).
  destruct (round_totals _ _ _ _ _ _ _ _ _ _ _ _ _ Hvalid Hfits Hat Hi Hrun)
    as (_ & Htot & Hfirst & _).
  pose proof (at_round_inv _ _ _ _ _ _ _ _ _ _ Hat) as (Hi0 & _ & Hinit & _).
  apply round_returned in Hrun as (_ & cnts & _ & _ & _ & Hst).
  simpl in Hst. subst st'. split; [apply next_batch_clamped; exact Hminmax|].
  destruct (Z.eq_dec i 0) as [->|Hne].
  - rewrite (Hfirst eq_refl). lia.
  - destruct IH as (Hn & Hup); [lia|]. rewrite Htot. nia.
Qed.

(** X7. The cost of a session, for a valid configuration whose totals fit
    an [int]: a session that returns has run at least [n_init + 1] trials and
    at most [n_init + 1 + (max_rounds - 1) * (max_incr + 1)]; its [n_tot]
    lies between [n_init] and [n_init + (r - 1) * max_incr], where [r] is the
    number of rounds it ran, itself between 1 and [max_rounds]. *)
Theorem session_cost (m0 : machine W) st i brk m' :
  valid_config c -> fits_int c ->
  run_session fuel c input_sz start stop run m0 = (Returned (st, i, brk), m') ->
  exists cnts,
    trace m' = trace m0 ++ map (Trial input_sz) cnts /\
    m_n_init c + 1 <= Z.of_nat (length cnts)
      <= m_n_init c + 1 + (m_max_rounds c - 1) * (m_max_incr c + 1) /\
    m_n_init c <= n_tot st
      <= m_n_init c + (rounds_run i brk - 1) * m_max_incr c /\
    1 <= rounds_run i brk <= m_max_rounds c.
Proof.
  intros Hvalid Hfits Hrun.
  pose proof Hvalid as (_ & _ & _ & _ & Hmin & Hminmax & Hrounds & Hinit).
  apply run_session_at_round in Hrun; [|lia]. destruct brk.
  - destruct Hrun as (Hi & st1 & m1 & Hat & Hrun).
    destruct (round_totals _ _ _ _ _ _ _ _ _ _ _ _ _ Hvalid Hfits Hat Hi Hrun)
      as (Hn & Htot & Hfirst & cnts1 & T1 & Hlen1 & _).
    pose proof (at_round_bounds _ _ _ _ _ _ _ _ _ _ Hvalid Hfits Hat)
      as (_ & Htot0 & _ & _ & Hlow & cnts & T0 & Hlen & _).
    pose proof (at_round_inv _ _ _ _ _ _ _ _ _ _ Hat) as (Hi0 & _).
    assert (m_n_init c <= n_tot st
            <= m_n_init c + i * m_max_incr c) as Hbound.
    { destruct (Z.eq_dec i 0) as [->|Hne]; [rewrite (Hfirst eq_refl); lia|].
      destruct (at_round_upper _ _ _ _ Hvalid Hfits Hat) as (Hn1 & Hup); [lia|].
      specialize (Hlow ltac:(lia)). rewrite Htot. nia. }
    exists (cnts ++ cnts1). rewrite map_app, app_assoc, <- T0, length_app.
    unfold rounds_run. replace (i + 1 - 1) with i by lia.
    split_and!; [exact T1|lia|nia|lia|lia|lia|lia].
  - destruct Hrun as (-> & Hat).
    pose proof (at_round_bounds _ _ _ _ _ _ _ _ _ _ Hvalid Hfits Hat)
      as (_ & _ & _ & _ & Hlow & cnts & T0 & Hlen & _).
    destruct (at_round_upper _ _ _ _ Hvalid Hfits Hat) as (_ & Hup); [lia|].
    specialize (Hlow ltac:(lia)).
    exists cnts. unfold rounds_run.
    split_and!; [exact T0|lia|nia|lia|lia|lia|lia].
Qed.

(** The least of a first count and those that follow is one of them and at
    most each of them. *)
Lemma fold_min_least (cnts : list Z) (cnt : Z) :
  fold_left Z.min cnts cnt ∈ cnt :: cnts /\
  Forall (fun x => fold_left Z.min cnts cnt <= x) (cnt :: cnts).
Proof.
  revert cnt. induction cnts as [|x cnts IH]; intros cnt; simpl.
  - split; [apply list_elem_of_here|]. constructor; [lia|constructor].
  - destruct (IH (Z.min cnt x)) as (Hin & Hall).
    apply Forall_cons in Hall as (Hhd & Htl). split.
    + apply elem_of_cons in Hin as [Heq|Hin].
      * rewrite Heq. destruct (Z.min_spec cnt x) as [(_ & ->)|(_ & ->)].
        -- apply list_elem_of_here.
        -- apply list_elem_of_further, list_elem_of_here.
      * apply list_elem_of_further, list_elem_of_further, Hin.
    + constructor; [lia|]. constructor; [lia|exact Htl].
Qed.

(** A session that returns ended in a round begun at a head of its loop. *)
Lemma session_last_round (m0 : machine W) st i brk m' :
  1 <= m_max_rounds c ->
  run_session fuel c input_sz start stop run m0 = (Returned (st, i, brk), m') ->
  exists i0 st0 m1,
    at_round fuel c input_sz start stop run m0 i0 st0 m1 /\
    i0 < m_max_rounds c /\
    rounds_run i brk = i0 + 1 /\
    round fuel c input_sz start stop run st0 m1 = (Returned (st, brk), m').
Proof.
  intros Hrounds Hrun.
  apply run_session_at_round in Hrun; [|lia]. destruct brk.
  - destruct Hrun as (Hi & st1 & m1 & Hat & Hrun).
    exists i, st1, m1. split_and!; [exact Hat|exact Hi|reflexivity|exact Hrun].
  - destruct Hrun as (Hi & Hat).
    destruct Hat as [|i0 st0 m1 st' m' Hat Hi0 Hrun]; [lia|].
    exists i0, st0, m1. split_and!; [exact Hat|exact Hi0|reflexivity|exact Hrun].
Qed.

(** X8. For a valid configuration whose totals fit an [int], the floor
    estimate [L_hat] of a session that returns is the least count of the
    trials of its last round: that round began at a head of the loop with
    batch size [n], ran [n + 1] trials, [L_hat] is the count of one of them
    and is at most the count of each of them. The trials of the rounds
    before have no part in it. *)
Theorem reported_floor_last_round (m0 : machine W) st i brk m' :
  valid_config c -> fits_int c ->
  run_session fuel c input_sz start stop run m0 = (Returned (st, i, brk), m') ->
  exists i0 st0 m1 last,
    at_round fuel c input_sz start stop run m0 i0 st0 m1 /\
    rounds_run i brk = i0 + 1 /\
    trace m' = trace m1 ++ map (Trial input_sz) last /\
    Z.of_nat (length last) = n st0 + 1 /\
    L_hat st ∈ last /\
    Forall (fun cnt => L_hat st <= cnt) last.
Proof.
  intros Hvalid Hfits Hrun.
  pose proof Hvalid as (_ & _ & _ & _ & _ & _ & Hrounds & _).
  apply session_last_round in Hrun
    as (i0 & st0 & m1 & Hat & Hi0 & Hrr & Hrun); [|exact Hrounds].
  pose proof (at_round_bounds _ _ _ _ _ _ _ _ _ _ Hvalid Hfits Hat)
    as (_ & Htot & Hn & Hfit & _).
  specialize (Hfit Hi0).
  apply round_returned in Hrun as (_ & cnts & T & Hlen & _ & Hst).
  specialize (Hlen ltac:(lia)).
  exists i0, st0, m1, cnts. split_and!; [exact Hat|exact Hrr|exact T|exact Hlen|..].
  all: destruct cnts as [|cnt cnts]; [simpl in Hlen; lia|].
  all: assert (L_hat st = fold_left Z.min cnts cnt) as ->
         by (subst st; simpl in Hlen;
             destruct brk; cbn [L_hat estimate next_batch];
             apply batch_floor; lia).
  all: apply fold_min_least.
Qed.

(** With no round to run, one input size is a report of zeros. *)
Lemma collect_for_input_size_no_round (N : Z) (u : updater (W := W))
    (m : machine W) :
  m_max_rounds c <= 0 ->
  collect_for_input_size fuel c N start stop run u m
  = call (u N 0%float 0 0)
      {| ctr := ctr m; world := world m;
         trace := trace m ++ [Report N 0 0 0] |}.
Proof.
  intros Hrounds. unfold collect_for_input_size, run_session.
  rewrite Z2Nat.nonpos by exact Hrounds. reflexivity.
Qed.

(** X9. With [max_rounds <= 0] a [collect] that returns has run no trial:
    the trace gains only the reports, one per input size in doubling order,
    each with sum 0, floor 0 and [n_tot] 0. *)
Theorem no_round_no_trial (N num_runs : Z) (u : updater (W := W))
    (m : machine W) m' :
  m_max_rounds c <= 0 ->
  collect fuel c N num_runs start stop run u m = (Returned tt, m') ->
  trace m' = trace m ++ map (fun N' => Report N' 0 0 0)
                            (doubling (Z.to_nat num_runs) N).
Proof.
  intros Hrounds. unfold collect.
  generalize (Z.to_nat num_runs) as left. intros left. revert N m.
  induction left as [|left IH]; intros N m Hrun; simpl in Hrun.
  - injection Hrun as <-. simpl. rewrite app_nil_r. reflexivity.
  - apply bind_returned_inv in Hrun as ([] & m1 & H1 & Hrun).
    rewrite collect_for_input_size_no_round in H1 by exact Hrounds.
    apply call_frame in H1 as (_ & T1). simpl in T1.
    apply IH in Hrun. rewrite Hrun, T1, <- app_assoc. reflexivity.
Qed.

End SessionCost.

(** ** Construction followed by collection *)

Section ConstructAndCollect.
Context {W : Type} {K : Kernel W} {P : Platform}.
Variables (start stop run : callback (W := W)) (u : updater (W := W)).
Hypothesis start_total : callback_total start.
Hypothesis stop_total : callback_total stop.
Hypothesis run_total : callback_total run.

(** The constructor leaves the trace as it is. *)
Lemma collector_ctor_trace (alpha beta_min : float)
    (min_incr max_incr max_rounds n_init : Z) (m : machine W) r m' :
  collector_ctor alpha beta_min min_incr max_incr max_rounds n_init m
    = (r, m') ->
  trace m' = trace m.
Proof.
  unfold collector_ctor.
  set (m0 := {| ctr := Counter.empty; world := world m; trace := trace m |}).
  destruct (counter_ctor_opened
              [PERF_COUNT_SW_TASK_CLOCK; PERF_COUNT_SW_CPU_CLOCK]
              [PERF_COUNT_HW_INSTRUCTIONS; PERF_COUNT_HW_REF_CPU_CYCLES]
              m0 eq_refl) as (m1 & Hrun & T1 & _).
  unfold bind at 1, put_ctr. fold m0.
  rewrite (bind_returned _ _ _ _ _ Hrun).
  unfold bind, get_ctr, ret. intros [= _ <-]. exact T1.
Qed.

(** X10. Construction followed by collection. With callbacks, an updater
    and control operations that do not fail, batch sizes below [INT_MAX] and
    enough fuel: as soon as one of the four channels opens, the collector
    the constructor builds selects a channel that exists, and [collect] on
    it returns with one report per input size, in doubling order. *)
Theorem construct_then_collect (alpha beta_min : float)
    (min_incr max_incr max_rounds n_init : Z) (fuel : nat) (N num_runs : Z)
    (m : machine W) :
  updater_total u ->
  control_ok ->
  opened requested [] (world m) <> [] ->
  Z.max n_init (Z.max min_incr max_incr) < INT_MAX ->
  Z.max 0 (Z.max n_init (Z.max min_incr max_incr) + 1) < Z.of_nat fuel ->
  exists m',
    (c <- collector_ctor alpha beta_min min_incr max_incr max_rounds n_init ;;
     collect fuel c N num_runs start stop run u) m = (Returned tt, m') /\
    report_sizes (trace m')
      = report_sizes (trace m) ++ doubling (Z.to_nat num_runs) N.
Proof.
  intros Hu Hcontrol Hne Hbatch Hfuel.
  destruct (collector_ctor_returns alpha beta_min min_incr max_incr max_rounds
              n_init m) as (m1 & Hctor & Hreach & _).
  pose proof (collector_ctor_selected_ok _ _ _ _ _ _ _ _ _ Hctor Hne) as Hsel.
  rewrite (bind_returned _ _ _ _ _ Hctor).
  rewrite <- (collector_ctor_trace _ _ _ _ _ _ _ _ _ Hctor).
  unfold collect.
  eapply collect_loop_returns; try eassumption.
Qed.

(** One timed run on a counter with no channel. *)
Lemma get_counts_no_channel (N : Z) (m : machine W) :
  m_fds (ctr m) = [] -> m_counts (ctr m) = [] ->
  exists m',
    Collector.get_counts N start stop run m = (Returned [], m') /\
    m_fds (ctr m') = [] /\ m_counts (ctr m') = [] /\ trace m' = trace m.
Proof.
  intros Hfds Hcnt. unfold Collector.get_counts.
  destruct (start_total N (world m)) as (w1 & H1).
  destruct (run_total N w1) as (w2 & H2).
  destruct (stop_total N w2) as (w3 & H3).
  unfold bind, call, Counter.start, Counter.stop, bind, get_ctr, ret.
  rewrite H1. simpl. rewrite Hfds. simpl. rewrite H2. simpl.
  rewrite Hfds. simpl. rewrite H3. simpl.
  unfold Counter.get_counts. simpl. rewrite Hcnt.
  eexists. split_and!; [reflexivity|..]; simpl; first [assumption|reflexivity].
Qed.

(** X11. Construction followed by collection when no channel opens: the
    constructor returns all the same, and with at least one input size, one
    round and a first batch size that is not negative, the first trial of
    [collect] reads the selected entry of an empty counts vector: undefined
    behaviour, before any trial is recorded or any report given. *)
Theorem collect_without_channel (alpha beta_min : float)
    (min_incr max_incr max_rounds n_init : Z) (fuel : nat) (N num_runs : Z)
    (m : machine W) :
  opened requested [] (world m) = [] ->
  1 <= num_runs -> 1 <= max_rounds -> 0 <= n_init -> (0 < fuel)%nat ->
  exists m',
    (c <- collector_ctor alpha beta_min min_incr max_incr max_rounds n_init ;;
     collect fuel c N num_runs start stop run u) m = (Undefined, m') /\
    trace m' = trace m.
Proof.
  intros Hnone Hruns Hrounds Hinit Hfuel.
  destruct (collector_ctor_returns alpha beta_min min_incr max_incr max_rounds
              n_init m) as (m1 & Hctor & _ & _ & Hfds & Hcnt).
  rewrite Hnone in Hfds, Hcnt. simpl in Hfds, Hcnt.
  rewrite <- (collector_ctor_trace _ _ _ _ _ _ _ _ _ Hctor).
  rewrite (bind_returned _ _ _ _ _ Hctor).
  destruct (get_counts_no_channel N m1 Hfds Hcnt) as (m2 & Hget & _ & _ & T2).
  exists m2. split; [|exact T2].
  unfold collect.
  destruct (Z.to_nat num_runs) as [|left] eqn:Hk; [lia|].
  cbn [collect_loop]. unfold collect_for_input_size, run_session.
  cbn [m_max_rounds].
  destruct (Z.to_nat max_rounds) as [|left'] eqn:Hr; [lia|].
  cbn [rounds]. unfold round.
  destruct fuel as [|fuel']; [lia|].
  cbn [gather init_locals n m_n_init].
  replace (0 <=? n_init) with true by lia.
  unfold gather_body. unfold bind. rewrite Hget.
  unfold get_status. rewrite Hfds. simpl. reflexivity.
Qed.

End ConstructAndCollect.

(** ** No fault with a selected channel that exists *)

Section Exits.
Context {W : Type} {K : Kernel W} {P : Platform}.
Variables (c : collector).
Variables (start stop run : callback (W := W)) (u : updater (W := W)).
Hypothesis start_exits : callback_exits start.
Hypothesis stop_exits : callback_exits stop.
Hypothesis run_exits : callback_exits run.
Hypothesis u_exits : updater_exits u.

(** A sequence exits when its first part does and the rest does after it
    returned. *)
Lemma bind_exits {A B} (f : M W A) (k : A -> M W B) m r m' :
  (forall r1 m1, f m = (r1, m1) -> exits r1) ->
  (forall a m1, f m = (Returned a, m1) -> k a m1 = (r, m') -> exits r) ->
  bind f k m = (r, m') -> exits r.
Proof.
  intros Hf Hk Hrun.
  apply bind_cases in Hrun
    as [(a & m1 & H1 & H2)|[(e & H1 & ->)|[(H1 & ->)|(H1 & ->)]]].
  - eapply Hk; eassumption.
  - exact I.
  - apply Hf in H1. exact H1.
  - apply Hf in H1. exact H1.
Qed.

Lemma call_exits (f : callback) (N : Z) (m : machine W) r m' :
  callback_exits f -> call (f N) m = (r, m') -> exits r.
Proof.
  intros Hf. unfold call. specialize (Hf N (world m)).
  destruct (f N (world m)) as [r1 w]. intros Hc. injection Hc as <- <-.
  exact Hf.
Qed.

Lemma start_exits_aligned (m : machine W) r m' :
  length (m_fds (ctr m)) = length (m_counts (ctr m)) ->
  Counter.start m = (r, m') -> exits r.
Proof.
  intros Hlen Hrun. unfold Counter.start, bind, get_ctr in Hrun.
  eapply channels_loop_outcome in Hrun as [->| ->];
    [exact I|exact I|exact Hlen|apply start_body_frame|apply start_body_outcome].
Qed.

Lemma stop_exits_aligned (m : machine W) r m' :
  length (m_fds (ctr m)) = length (m_counts (ctr m)) ->
  Counter.stop m = (r, m') -> exits r.
Proof.
  intros Hlen Hrun. unfold Counter.stop, bind, get_ctr in Hrun.
  eapply channels_loop_outcome in Hrun as [->| ->];
    [exact I|exact I|exact Hlen|apply stop_body_frame|apply stop_body_outcome].
Qed.

Lemma frame_aligned (m m' : machine W) :
  frame m m' ->
  length (m_fds (ctr m)) = length (m_counts (ctr m)) ->
  length (m_fds (ctr m')) = length (m_counts (ctr m')).
Proof. intros ((_ & F & C) & _) Hlen. congruence. Qed.

Lemma get_counts_exits (N : Z) (m : machine W) r m' :
  length (m_fds (ctr m)) = length (m_counts (ctr m)) ->
  Collector.get_counts N start stop run m = (r, m') -> exits r.
Proof.
  intros Hlen. unfold Collector.get_counts.
  apply bind_exits; [intros r1 m1; apply call_exits, start_exits|].
  intros [] m1 H1. apply call_frame in H1.
  pose proof (frame_aligned _ _ H1 Hlen) as Hlen1.
  apply bind_exits; [intros r2 m2; apply start_exits_aligned, Hlen1|].
  intros [] m2 H2. apply start_frame in H2.
  pose proof (frame_aligned _ _ H2 Hlen1) as Hlen2.
  apply bind_exits; [intros r3 m3; apply call_exits, run_exits|].
  intros [] m3 H3. apply call_frame in H3.
  pose proof (frame_aligned _ _ H3 Hlen2) as Hlen3.
  apply bind_exits; [intros r4 m4; apply stop_exits_aligned, Hlen3|].
  intros [] m4 H4.
  apply bind_exits; [intros r5 m5; apply call_exits, stop_exits|].
  intros [] m5 H5. unfold bind, get_ctr, ret. intros [= <- <-]. exact I.
Qed.

Lemma same_shape_selected_ok (k k' : counter) :
  same_shape k k' -> selected_ok c k -> selected_ok c k'.
Proof.
  intros (E & F & C) (Hlen & Hidx). unfold selected_ok.
  rewrite F, C. split; assumption.
Qed.

Lemma gather_body_exits (N i : Z) (st : locals) (m : machine W) r m' :
  selected_ok c (ctr m) ->
  gather_body c N start stop run i st m = (r, m') -> exits r.
Proof.
  intros Hsel. unfold gather_body.
  apply bind_exits; [intros r1 m1; apply get_counts_exits, Hsel|].
  intros counts m1 H1.
  apply get_counts_returned in H1 as (F1 & ->).
  pose proof (frame_selected_ok _ _ _ F1 Hsel) as (Hlen1 & Hidx1).
  unfold bind at 1, at_int_index, at_index.
  replace (m_ctr_idx c <? 0) with false by lia.
  destruct (lookup_lt_is_Some_2 (m_counts (ctr m1)) (Z.to_nat (m_ctr_idx c)))
    as (cnt & ->); [lia|].
  unfold ret at 1, bind, emit, ret. intros [= <- <-]. exact I.
Qed.

Lemma gather_exits (fuel : nat) (N i : Z) (st : locals) (m : machine W) r m' :
  selected_ok c (ctr m) ->
  0 <= i -> n st < INT_MAX ->
  n st + 1 - i < Z.of_nat fuel -> (0 < fuel)%nat ->
  gather fuel c N start stop run i st m = (r, m') -> exits r.
Proof.
  revert i st m. induction fuel as [|fuel IH];
    intros i st m Hsel Hi Hn Hfuel Hpos; [lia|].
  simpl. destruct (i <=? n st) eqn:Hin.
  - apply bind_exits; [intros r1 m1; apply gather_body_exits, Hsel|].
    intros st1 m1 H1.
    apply gather_body_returned in H1 as (S1 & cnt & -> & _).
    rewrite wrap_int_id by (unfold INT_MIN; lia).
    apply IH; [eapply same_shape_selected_ok; eassumption|simpl; lia..].
  - unfold ret. intros [= <- <-]. exact I.
Qed.

Variable fuel : nat.
Hypothesis batch_ends : max_batch c < INT_MAX.
Hypothesis enough_fuel : Z.max 0 (max_batch c + 1) < Z.of_nat fuel.

Lemma round_exits (N : Z) (st : locals) (m : machine W) r m' :
  selected_ok c (ctr m) ->
  n st <= max_batch c ->
  round fuel c N start stop run st m = (r, m') ->
  exits r /\
  forall st' brk, r = Returned (st', brk) ->
    selected_ok c (ctr m') /\ n st' <= max_batch c.
Proof.
  intros Hsel Hn Hrun. split.
  - revert Hrun. unfold round.
    apply bind_exits;
      [intros r1 m1; apply gather_exits; [exact Hsel|lia..]|].
    intros st1 m1 H1. unfold ret.
    destruct (_ <=? _)%float; intros [= <- <-]; exact I.
  - intros st' brk ->.
    pose proof (round_only_trials _ _ _ _ _ _ _ _ _ _ Hrun) as (S1 & _).
    split; [eapply same_shape_selected_ok; eassumption|].
    apply round_returned in Hrun as (_ & cnts & _ & _ & _ & ->).
    destruct brk.
    + simpl. rewrite absorb_all_n. exact Hn.
    + pose proof (next_batch_le c (estimate c (absorb_all 0 st cnts))).
      unfold max_batch. lia.
Qed.

Lemma rounds_exits (left : nat) (N i : Z) (st : locals) (m : machine W) r m' :
  selected_ok c (ctr m) ->
  n st <= max_batch c ->
  rounds left fuel c N start stop run i st m = (r, m') -> exits r.
Proof.
  revert i st m. induction left as [|left IH]; intros i st m Hsel Hn; simpl.
  - unfold ret. intros [= <- <-]. exact I.
  - apply bind_exits; [intros r1 m1 H1; eapply round_exits; eassumption|].
    intros [st1 brk] m1 H1.
    destruct (round_exits _ _ _ _ _ Hsel Hn H1) as (_ & Hnext).
    destruct (Hnext _ _ eq_refl) as (Hsel1 & Hn1).
    destruct brk.
    + unfold ret. intros [= <- <-]. exact I.
    + apply IH; assumption.
Qed.

Lemma collect_for_input_size_exits (N : Z) (m : machine W) r m' :
  selected_ok c (ctr m) ->
  collect_for_input_size fuel c N start stop run u m = (r, m') -> exits r.
Proof.
  intros Hsel. unfold collect_for_input_size.
  apply bind_exits.
  - intros r1 m1. apply rounds_exits; [exact Hsel|].
    unfold max_batch. simpl. lia.
  - intros [[st i] brk] m1 H1. unfold bind, emit, call. simpl.
    pose proof (u_exits N (sum st) (L_hat st) (n_tot st) (world m1)) as Hu.
    destruct (u N (sum st) (L_hat st) (n_tot st) (world m1)) as [r1 w].
    intros [= <- <-]. exact Hu.
Qed.

Lemma collect_loop_exits (left : nat) (N : Z) (m : machine W) r m' :
  selected_ok c (ctr m) ->
  collect_loop left fuel c N start stop run u m = (r, m') -> exits r.
Proof.
  revert N m. induction left as [|left IH]; intros N m Hsel; simpl.
  - unfold ret. intros [= <- <-]. exact I.
  - apply bind_exits;
      [intros r1 m1; apply collect_for_input_size_exits, Hsel|].
    intros [] m1 H1. apply IH.
    apply collect_for_input_size_any in H1 as (S1 & _).
    eapply same_shape_selected_ok; eassumption.
Qed.

(** X12. With a selected channel that is an entry of the counts vector,
    batch sizes below [INT_MAX] and enough fuel, [collect] ends by a return
    or by an exception, whatever the control operations answer and whether
    the callbacks and the updater return or throw: no vector is indexed out
    of its bounds and every batch loop ends. *)
Theorem collect_exits (N num_runs : Z) (m : machine W) r m' :
  selected_ok c (ctr m) ->
  collect fuel c N num_runs start stop run u m = (r, m') ->
  exits r.
Proof. intros Hsel. apply collect_loop_exits, Hsel. Qed.

End Exits.

(** ** The order of the calls, on the recording world *)

Section CallOrder.
Import Recorder.
Variable avail : perf_event_attr -> bool.

Local Abbreviation RK := (rec_kernel avail).



(** [start] from index [length pre] on, the descriptors being [pre ++ rest]. *)
Lemma rec_start_from (pre rest : list Z) (m : machine (list action)) :
  m_fds (ctr m) = pre ++ rest ->
  length (m_counts (ctr m)) = length (pre ++ rest) ->
  Forall (fun fd => -1 < fd) rest ->
  exists m',
    for_each (seq (length pre) (length rest)) (start_body (K := RK)) m
      = (Returned tt, m') /\
    frame m m' /\
    world m' = world m ++ start_actions rest.
Proof.
  revert pre m. induction rest as [|fd rest IH]; intros pre m Hfds Hcnt Hall.
  - exists m. simpl. rewrite app_nil_r.
    split_and!; [reflexivity|apply frame_refl|reflexivity].
  - apply Forall_cons in Hall as (Hfd & Hall).
    assert (m_fds (ctr m) !! length pre = Some fd) as Hlook
      by (rewrite Hfds; apply list_lookup_middle; reflexivity).
    destruct (lookup_lt_is_Some_2 (m_counts (ctr m)) (length pre))
      as (cnt & Hc); [rewrite Hcnt, length_app; simpl; lia|].
    assert (exists m1,
              start_body (K := RK) (length pre) m = (Returned tt, m1) /\
              frame m m1 /\
              world m1 = world m ++ [Ioctl fd PERF_EVENT_IOC_RESET 0;
                                     Ioctl fd PERF_EVENT_IOC_ENABLE 0])
      as (m1 & H1 & F1 & W1).
    { unfold start_body, bind, get_ctr, at_index, when, sys, throw_errno,
        put_ctr, ret, undefined. rewrite Hlook.
      replace (-1 <? fd) with true by lia. simpl. rewrite Hc.
      eexists. split_and!; [reflexivity| |simpl; rewrite <- app_assoc; reflexivity].
      repeat split; simpl. apply length_insert. }
    destruct F1 as ((E1 & Fd1 & C1) & T1).
    destruct (IH (pre ++ [fd]) m1) as (m2 & H2 & F2 & W2).
    + rewrite Fd1, Hfds, <- app_assoc. reflexivity.
    + rewrite C1, Hcnt, <- app_assoc. reflexivity.
    + exact Hall.
    + exists m2. simpl. rewrite (bind_returned _ _ _ _ _ H1).
      rewrite length_app, Nat.add_1_r in H2.
      split_and!; [exact H2| |].
      * eapply frame_trans; [|exact F2]. repeat split; assumption.
      * rewrite W2, W1, <- app_assoc. reflexivity.
Qed.

Lemma rec_stop_from (pre rest : list Z) (m : machine (list action)) :
  m_fds (ctr m) = pre ++ rest ->
  length (m_counts (ctr m)) = length (pre ++ rest) ->
  Forall (fun fd => -1 < fd) rest ->
  exists m',
    for_each (seq (length pre) (length rest)) (stop_body (K := RK)) m
      = (Returned tt, m') /\
    frame m m' /\
    world m' = world m ++ stop_actions rest.
Proof.
  revert pre m. induction rest as [|fd rest IH]; intros pre m Hfds Hcnt Hall.
  - exists m. simpl. rewrite app_nil_r.
    split_and!; [reflexivity|apply frame_refl|reflexivity].
  - apply Forall_cons in Hall as (Hfd & Hall).
    assert (m_fds (ctr m) !! length pre = Some fd) as Hlook
      by (rewrite Hfds; apply list_lookup_middle; reflexivity).
    destruct (lookup_lt_is_Some_2 (m_counts (ctr m)) (length pre))
      as (cnt & Hc); [rewrite Hcnt, length_app; simpl; lia|].
    assert (exists m1,
              stop_body (K := RK) (length pre) m = (Returned tt, m1) /\
              frame m m1 /\
              world m1 = world m ++ [Ioctl fd PERF_EVENT_IOC_DISABLE 0;
                                     Read fd])
      as (m1 & H1 & F1 & W1).
    { unfold stop_body, bind, get_ctr, at_index, when, sys, throw_errno,
        put_ctr, ret, undefined. rewrite Hlook.
      replace (-1 <? fd) with true by lia. simpl. rewrite Hc. simpl.
      eexists. split_and!; [reflexivity| |simpl; rewrite <- app_assoc; reflexivity].
      repeat split; simpl. apply length_insert. }
    destruct F1 as ((E1 & Fd1 & C1) & T1).
    destruct (IH (pre ++ [fd]) m1) as (m2 & H2 & F2 & W2).
    + rewrite Fd1, Hfds, <- app_assoc. reflexivity.
    + rewrite C1, Hcnt, <- app_assoc. reflexivity.
    + exact Hall.
    + exists m2. simpl. rewrite (bind_returned _ _ _ _ _ H1).
      rewrite length_app, Nat.add_1_r in H2.
      split_and!; [exact H2| |].
      * eapply frame_trans; [|exact F2]. repeat split; assumption.
      * rewrite W2, W1, <- app_assoc. reflexivity.
Qed.

Lemma rec_start (ops : list (perf_event_attr * Z)) (m : machine (list action)) :
  reachable (K := RK) ops m ->
  exists m',
    start (K := RK) m = (Returned tt, m') /\
    reachable (K := RK) ops m' /\
    trace m' = trace m /\
    world m' = world m ++ start_actions ops.*2.
Proof.
  intros Hreach.
  pose proof (reachable_inv _ _ Hreach) as (_ & Hfds & Hcnt & Hall).
  destruct (rec_start_from [] ops.*2 m) as (m' & H1 & F1 & W1);
    [exact Hfds|simpl; rewrite length_fmap; exact Hcnt|exact Hall|].
  assert (start (K := RK) m = (Returned tt, m')) as Hrun.
  { unfold start, bind, get_ctr. rewrite Hfds. exact H1. }
  exists m'. split_and!; [exact Hrun| |apply F1|exact W1].
  eapply reach_start; [exact Hreach|exact Hrun].
Qed.

Lemma rec_stop (ops : list (perf_event_attr * Z)) (m : machine (list action)) :
  reachable (K := RK) ops m ->
  exists m',
    stop (K := RK) m = (Returned tt, m') /\
    reachable (K := RK) ops m' /\
    trace m' = trace m /\
    world m' = world m ++ stop_actions ops.*2.
Proof.
  intros Hreach.
  pose proof (reachable_inv _ _ Hreach) as (_ & Hfds & Hcnt & Hall).
  destruct (rec_stop_from [] ops.*2 m) as (m' & H1 & F1 & W1);
    [exact Hfds|simpl; rewrite length_fmap; exact Hcnt|exact Hall|].
  assert (stop (K := RK) m = (Returned tt, m')) as Hrun.
  { unfold stop, bind, get_ctr. rewrite Hfds. exact H1. }
  exists m'. split_and!; [exact Hrun| |apply F1|exact W1].
  eapply reach_stop; [exact Hreach|exact Hrun].
Qed.

(** X14. On the recording world, one timed run on a state a counter goes
    through makes these calls, in this order: the setup callback; for each
    channel in the order it opened, the ioctl RESET then the ioctl ENABLE;
    the run under test; for each channel in the same order, the ioctl
    DISABLE then the read of its count; the teardown callback. *)
Theorem trial_call_order (ops : list (perf_event_attr * Z)) (N : Z)
    (m : machine (list action)) :
  reachable (K := rec_kernel avail) ops m ->
  exists counts m',
    Collector.get_counts (K := rec_kernel avail) N
      rec_setup rec_teardown rec_body m = (Returned counts, m') /\
    world m' = world m ++ [Setup N] ++ start_actions ops.*2 ++ [Body N]
                       ++ stop_actions ops.*2 ++ [Teardown N].
Proof.
  intros Hreach. unfold Collector.get_counts.
  unfold bind at 1, call at 1, rec_setup at 1.
  set (m1 := {| ctr := ctr m; world := world m ++ [Setup N];
                trace := trace m |}).
  assert (reachable (K := RK) ops m1) as Hreach1 by (apply reach_env, Hreach).
  destruct (rec_start ops m1 Hreach1) as (m2 & H2 & Hreach2 & _ & W2).
  rewrite (bind_returned _ _ _ _ _ H2).
  unfold bind at 1, call at 1, rec_body at 1.
  set (m3 := {| ctr := ctr m2; world := world m2 ++ [Body N];
                trace := trace m2 |}).
  assert (reachable (K := RK) ops m3) as Hreach3 by (apply reach_env, Hreach2).
  destruct (rec_stop ops m3 Hreach3) as (m4 & H4 & _ & _ & W4).
  rewrite (bind_returned _ _ _ _ _ H4).
  unfold bind, call, rec_teardown, get_ctr, ret.
  eexists _, _. split; [reflexivity|]. simpl.
  rewrite W4. simpl. rewrite W2. simpl. rewrite <- !app_assoc. reflexivity.
Qed.

(** X15. On the recording world, when the run under test throws, the timed
    run ends with that exception right after it: no channel is disabled or
    read and the teardown callback is not called. *)
Theorem throwing_run_leaves_counters_enabled
    (ops : list (perf_event_attr * Z)) (N e : Z)
    (m : machine (list action)) :
  reachable (K := rec_kernel avail) ops m ->
  exists m',
    Collector.get_counts (K := rec_kernel avail) N
      rec_setup rec_teardown (rec_throwing_body e) m = (Thrown e, m') /\
    world m' = world m ++ [Setup N] ++ start_actions ops.*2 ++ [Body N].
Proof.
  intros Hreach. unfold Collector.get_counts.
  unfold bind at 1, call at 1, rec_setup at 1.
  set (m1 := {| ctr := ctr m; world := world m ++ [Setup N];
                trace := trace m |}).
  assert (reachable (K := RK) ops m1) as Hreach1 by (apply reach_env, Hreach).
  destruct (rec_start ops m1 Hreach1) as (m2 & H2 & Hreach2 & _ & W2).
  rewrite (bind_returned _ _ _ _ _ H2).
  unfold bind at 1, call at 1, rec_throwing_body at 1.
  eexists. split; [reflexivity|]. simpl.
  rewrite W2. simpl. rewrite <- !app_assoc. reflexivity.
Qed.

End CallOrder.

(** ** Runs of the code on the scripted source *)

Import Stub.

Ltac check_config :=
  unfold valid_config, fits_int, INT_MAX; simpl;
  split_and?; first [reflexivity | lia].

Ltac stub_total :=
  first [ intros ? ?; eexists; reflexivity
        | intros ? ? ? ? ?; eexists; reflexivity ].

(** The constructor on [linux]: the four channels open and index 2 is
    selected. *)
Lemma ready_constructed (counts : list Z) alpha beta_min min_incr max_incr
    max_rounds n_init :
  collector_ctor (K := linux) alpha beta_min min_incr max_incr max_rounds
    n_init (boot counts)
  = (Returned (configured alpha beta_min min_incr max_incr max_rounds n_init),
     ready counts).
Proof. reflexivity. Qed.



(** C1, at a failing input. With [n_init = 1], [min_incr = max_incr = 1] and
    two rounds, on the counts 5, 9, 10, 10: the first round leaves
    [L_hat = 5], the first trial of the second round sets it to 10, and the
    report carries [L_hat = 10], above the counts 5 and 9 observed in the
    session. *)
Theorem floor_estimate_restarts_each_round :
  let c := configured 0.05 0.05 1 1 2 1 in
  exists m1 st1 m2,
    round (K := linux) (P := x86_64) 100 c 64 stub_idle stub_idle stub_run
          (init_locals c) (ready [5; 9; 10; 10])
      = (Returned (st1, false), m1) /\
    L_hat st1 = 5 /\
    collect_for_input_size (K := linux) (P := x86_64) 100 c 64
        stub_idle stub_idle stub_run stub_updater (ready [5; 9; 10; 10])
      = (Returned tt, m2) /\
    trace m2 = [Trial 64 5; Trial 64 9; Trial 64 10; Trial 64 10;
                Report 64 34 10 2] /\
    ~ Forall (fun cnt => Forall (fun L => L <= cnt) (report_floors (trace m2)))
             (trial_counts (trace m2)).
Proof.
  eexists _, _, _. split; [vm_compute; reflexivity|].
  split; [reflexivity|]. split; [vm_compute; reflexivity|].
  split; [reflexivity|].
  intros Hall. apply Forall_inv in Hall. apply Forall_inv in Hall. lia.
Qed.


(** The same source with the count 1000: the first round runs 31 trials and
    divides their sum by 30, so the mean is above the minimum and the session
    converges there. *)
Lemma constant_1000_not_degenerate :
  let c := configured 0.05 0.05 10 1000 20 30 in
  exists st' m',
    round (K := linux) (P := x86_64) 100 c 64 stub_idle stub_idle
          (const_run 1000) (init_locals c) (ready [])
      = (Returned (st', true), m') /\
    L_hat st' = 1000 /\ sum st' = 31000%float /\ n_tot st' = 30 /\
    (double_of_Z (L_hat st') <? xbar st')%float = true.
Proof.
  eexists _, _. split; [vm_compute; reflexivity|]. split_and!; reflexivity.
Qed.

(** C3, as stated, fails: for the valid configuration (0.05, 0.05, 10, 1000,
    20, 30) the first round ends with [n_tot = 30], which is not at least
    [n_init + 1]. *)
Lemma n_tot_after_first_round :
  let c := configured 0.05 0.05 10 1000 20 30 in
  valid_config c /\
  exists st' brk m',
    round (K := linux) (P := x86_64) 100 c 64 stub_idle stub_idle
          (const_run 1000) (init_locals c) (ready [])
      = (Returned (st', brk), m') /\
    n_tot st' = 30 /\
    ~ (m_n_init c + 1 <= n_tot st').
Proof.
  split; [check_config|].
  eexists _, _, _. split; [vm_compute; reflexivity|].
  split; [reflexivity|]. simpl. lia.
Qed.

(** C4, as stated, fails: with callbacks that never fail, on a kernel whose
    ioctl fails, [collect(64, 3, ...)] throws in the first trial and the
    updater is never invoked. *)
Lemma collect_control_failure :
  let c := configured 0.05 0.05 10 1000 20 30 in
  callback_total stub_idle /\ callback_total stub_run /\
  updater_total stub_updater /\
  exists m',
    collect (K := linux_failing_ioctl) (P := x86_64) 100 c 64 3
      stub_idle stub_idle stub_run stub_updater (ready [])
    = (Thrown 22, m') /\
    report_sizes (trace m') = [].
Proof.
  split; [stub_total|]. split; [stub_total|]. split; [stub_total|].
  eexists. split; [vm_compute; reflexivity|]. reflexivity.
Qed.


(** Where the positions 0 and 2 miss: when every event opens but the
    software cpu clock, the hardware instruction count is open, at index 1,
    and index 2 selects the hardware reference cycles. *)
Lemma ctor_selects_ref_cycles :
  exists c m',
    collector_ctor (K := stub_kernel no_cpu_clock 0) 0.05 0.05 10 1000 20 30
      (boot [])
      = (Returned c, m') /\
    m_events (ctr m')
      = [sw_task_clock (K := linux); hw_instructions (K := linux);
         hw_ref_cycles (K := linux)] /\
    m_ctr_idx c = 2 /\
    selected c (ctr m') = Some (hw_ref_cycles (K := linux)).
Proof. eexists _, _. split_and!; reflexivity. Qed.


(** ** Instances of the statements above *)


(** The counter built on [linux], where the four channels open. *)
Lemma counter_vectors_aligned_witness :
  let ops := opened (K := linux) requested [] (world (boot [])) in
  reachable (K := linux) ops (ready []) /\
  m_events (ctr (ready [])) = ops.*1 /\
  m_fds (ctr (ready [])) = ops.*2 /\
  length (Counter.get_counts (ctr (ready []))) = length ops /\
  length (m_events (ctr (ready []))) = length (m_fds (ctr (ready []))) /\
  length (m_fds (ctr (ready []))) = length (m_counts (ctr (ready []))) /\
  Forall (fun fd => -1 < fd) (m_fds (ctr (ready []))) /\
  (forall i, is_Some (Counter.get_counts (ctr (ready [])) !! i)
             <-> is_Some (ops !! i)).
Proof.
  intros ops.
  assert (reachable (K := linux) ops (ready [])) as Hreach.
  { apply (reachable_ctor (K := linux)
             [PERF_COUNT_SW_TASK_CLOCK; PERF_COUNT_SW_CPU_CLOCK]
             [PERF_COUNT_HW_INSTRUCTIONS; PERF_COUNT_HW_REF_CPU_CYCLES]
             (boot []) (Returned tt)); reflexivity. }
  split; [exact Hreach|].
  exact (counter_vectors_aligned (K := linux) ops (ready []) Hreach).
Defined.

(** The first round of a session on the constant count 1000. *)
Lemma n_tot_increases_witness :
  let c := configured 0.05 0.05 10 1000 20 30 in
  exists st' brk m',
    round (K := linux) (P := x86_64) 100 c 64 stub_idle stub_idle
          (const_run 1000) (init_locals c) (ready [])
      = (Returned (st', brk), m') /\
    n_tot (init_locals c) < n_tot st' /\
    n_tot st' = n_tot (init_locals c) + n (init_locals c) /\
    1 <= n (init_locals c) /\
    (0 = 0 -> n_tot st' = m_n_init c).
Proof.
  intros c. eexists _, _, _. split; [vm_compute; reflexivity|].
  eapply (n_tot_increases (K := linux) (P := x86_64) 100 64 stub_idle
            stub_idle (const_run 1000) c (ready []) 0).
  - check_config.
  - check_config.
  - apply at_first.
  - simpl. lia.
  - vm_compute. reflexivity.
Defined.

(** A session of two rounds that ends exhausted. *)
Lemma session_end_witness :
  let c := configured 0.05 0.05 1 1 2 1 in
  exists st m',
    run_session (K := linux) (P := x86_64) 100 c 64 stub_idle stub_idle
        stub_run (ready [5; 9; 10; 10])
      = (Returned (st, 2, false), m') /\
    (converged c st /\ ~ exhausted c st (rounds_run 2 false) \/
     exhausted c st (rounds_run 2 false) /\ ~ converged c st) /\
    rounds_run 2 false <= m_max_rounds c.
Proof.
  intros c. eexists _, _. split; [vm_compute; reflexivity|].
  eapply (session_end (K := linux) (P := x86_64) 100 64 stub_idle stub_idle
            stub_run c (ready [5; 9; 10; 10])).
  - simpl. lia.
  - vm_compute. reflexivity.
Defined.

(** The same session: four trials, [n_tot = 2], two rounds. *)
Lemma trials_exceed_n_tot_witness :
  let c := configured 0.05 0.05 1 1 2 1 in
  exists st m',
    run_session (K := linux) (P := x86_64) 100 c 64 stub_idle stub_idle
        stub_run (ready [5; 9; 10; 10])
      = (Returned (st, 2, false), m') /\
    n_tot st = 2 /\
    exists cnts,
      trace m' = trace (ready [5; 9; 10; 10]) ++ map (Trial 64) cnts /\
      Z.of_nat (length cnts) = n_tot st + rounds_run 2 false /\
      sum st = add_counts cnts 0.
Proof.
  intros c. eexists _, _. split; [vm_compute; reflexivity|].
  split; [reflexivity|].
  eapply (proj2 (trials_exceed_n_tot (K := linux) (P := x86_64) 100 64
                   stub_idle stub_idle stub_run c (ready [5; 9; 10; 10])
                   ltac:(check_config) ltac:(check_config))).
  vm_compute. reflexivity.
Defined.


(** [collect(64, 3, ...)]: three reports, for the sizes 64, 128 and 256. *)
Lemma collect_reports_witness :
  let c := configured 0.05 0.05 1 1 2 1 in
  exists m',
    collect (K := linux) (P := x86_64) 100 c 64 3 stub_idle stub_idle
        stub_run stub_updater (ready [5; 9; 10; 10; 1; 2; 3; 4; 5; 6; 7; 8])
      = (Returned tt, m') /\
    report_sizes (trace m') = [64; 128; 256].
Proof.
  intros c.
  destruct (collect_reports (K := linux) (P := x86_64) 100 c 64 3 stub_idle
              stub_idle stub_run stub_updater
              (ready [5; 9; 10; 10; 1; 2; 3; 4; 5; 6; 7; 8]))
    as (m' & Hret & Hsizes & _).
  - stub_total.
  - stub_total.
  - stub_total.
  - stub_total.
  - split; intros; unfold linux; simpl; lia.
  - subst c. unfold selected_ok, ready, configured, PERF_HW_INSTR_CTR. simpl. lia.
  - vm_compute. reflexivity.
  - vm_compute. reflexivity.
  - exists m'. split; [exact Hret|exact Hsizes].
Defined.

(** The counter built on [linux]: descriptor 3 at index 0, status [false]. *)
Lemma get_status_first_channel_witness :
  let ops := opened (K := linux) requested [] (world (boot [])) in
  ops <> [] /\
  (exists fd, m_fds (ctr (ready [])) !! 0%nat = Some fd /\ -1 < fd) /\
  get_status (ctr (ready [])) 0 = false /\
  (forall i, get_status (ctr (ready [])) i = true
             <-> 0 < i < Z.of_nat (length ops)).
Proof.
  intros ops.
  assert (ops <> []) as Hne by discriminate.
  split; [exact Hne|].
  apply (get_status_first_channel (K := linux) ops (ready [])); [|exact Hne].
  apply (reachable_ctor (K := linux)
           [PERF_COUNT_SW_TASK_CLOCK; PERF_COUNT_SW_CPU_CLOCK]
           [PERF_COUNT_HW_INSTRUCTIONS; PERF_COUNT_HW_REF_CPU_CYCLES]
           (boot []) (Returned tt)); reflexivity.
Defined.


(** ** Instances of the further statements *)


(** A counter holding counts of an earlier run. *)
Lemma start_zeroes_counts_witness :
  let m := {| ctr := {| m_events := m_events (ctr (ready []));
                        m_fds := [3; 4; 5; 6];
                        m_counts := [17; 4; 1000; 998] |};
              world := world (ready []);
              trace := [] |} in
  exists m',
    start (K := linux) m = (Returned tt, m') /\
    Counter.get_counts (ctr m') = [0; 0; 0; 0].
Proof.
  intros m. eexists. split; [vm_compute; reflexivity|].
  eapply (start_zeroes_counts (K := linux) m).
  - reflexivity.
  - vm_compute. reflexivity.
Defined.

(** Where every ioctl fails, [start] throws the [errno] of the world. *)
Lemma start_stop_outcomes_witness :
  exists m',
    start (K := linux_failing_ioctl) (ready []) = (Thrown 22, m') /\
    same_shape (ctr (ready [])) (ctr m') /\
    trace m' = [].
Proof.
  eexists. split; [vm_compute; reflexivity|].
  eapply (start_stop_outcomes (K := linux_failing_ioctl) (ready [])).
  - reflexivity.
  - left. vm_compute. reflexivity.
Defined.

(** On the recording world with the four channels open, the destructor
    closes descriptor 3 and nothing else. *)
Lemma counter_dtor_closes_leader_witness :
  let K := Recorder.rec_kernel all_events in
  let m0 := {| ctr := Counter.empty; world := []; trace := [] |} in
  let m := (counter_ctor (K := K)
              [PERF_COUNT_SW_TASK_CLOCK; PERF_COUNT_SW_CPU_CLOCK]
              [PERF_COUNT_HW_INSTRUCTIONS; PERF_COUNT_HW_REF_CPU_CYCLES]
              m0).2 in
  reachable (K := K) (opened (K := K) requested [] []) m /\
  -1 < 3 /\
  counter_dtor (C := Recorder.rec_closing) m
  = (Returned tt,
     {| ctr := ctr m; world := world m ++ [Recorder.Close 3];
        trace := trace m |}).
Proof.
  intros K m0 m.
  assert (reachable (K := K) (opened (K := K) requested [] []) m) as Hreach.
  { apply (reachable_ctor (K := K)
             [PERF_COUNT_SW_TASK_CLOCK; PERF_COUNT_SW_CPU_CLOCK]
             [PERF_COUNT_HW_INSTRUCTIONS; PERF_COUNT_HW_REF_CPU_CYCLES]
             m0 (Returned tt)); reflexivity. }
  split; [exact Hreach|].
  exact (counter_dtor_closes_leader (K := K) (C := Recorder.rec_closing)
           _ m Hreach).
Defined.

(** Two input sizes on the scripted source. *)
Lemma collect_trace_blocks_witness :
  let c := configured 0.05 0.05 1 1 2 1 in
  exists m' blocks,
    collect (K := linux) (P := x86_64) 100 c 64 2 stub_idle stub_idle
        stub_run stub_updater (ready [5; 9; 10; 10; 1; 2; 3; 4])
      = (Returned tt, m') /\
    length blocks = 2%nat /\
    trace m' = concat (zip_with session_block [64; 128] blocks).
Proof.
  intros c. eexists.
  assert (collect (K := linux) (P := x86_64) 100 c 64 2 stub_idle stub_idle
            stub_run stub_updater (ready [5; 9; 10; 10; 1; 2; 3; 4])
          = (Returned tt, _)) as Hrun by (vm_compute; reflexivity).
  destruct (collect_trace_blocks (K := linux) (P := x86_64) _ _ _ _ _ _ _ _ _ _
              Hrun) as (blocks & Hlen & Htr & _).
  exists blocks. split; [exact Hrun|]. split; [exact Hlen|exact Htr].
Defined.

(** Where every ioctl fails, [collect] throws before any report. *)
Lemma collect_reports_prefix_witness :
  let c := configured 0.05 0.05 1 1 2 1 in
  exists m' j,
    collect (K := linux_failing_ioctl) (P := x86_64) 100 c 64 3 stub_idle
        stub_idle stub_run stub_updater (ready [5; 9; 10; 10])
      = (Thrown 22, m') /\
    (j <= 3)%nat /\
    report_sizes (trace m') = take j [64; 128; 256].
Proof.
  intros c. eexists.
  assert (collect (K := linux_failing_ioctl) (P := x86_64) 100 c 64 3
            stub_idle stub_idle stub_run stub_updater (ready [5; 9; 10; 10])
          = (Thrown 22, _)) as Hrun by (vm_compute; reflexivity).
  destruct (collect_reports_prefix (K := linux_failing_ioctl) (P := x86_64)
              _ _ _ _ _ _ _ _ _ _ _ Hrun) as (_ & j & Hj & Htr & _).
  exists j. split; [exact Hrun|]. split; [exact Hj|exact Htr].
Defined.

Lemma session_cost_witness :
  let c := configured 0.05 0.05 1 1 2 1 in
  exists st m' cnts,
    run_session (K := linux) (P := x86_64) 100 c 64 stub_idle stub_idle
        stub_run (ready [5; 9; 10; 10])
      = (Returned (st, 2, false), m') /\
    trace m' = map (Trial 64) cnts /\
    2 <= Z.of_nat (length cnts) <= 4.
Proof.
  intros c. eexists _, _.
  assert (run_session (K := linux) (P := x86_64) 100 c 64 stub_idle stub_idle
            stub_run (ready [5; 9; 10; 10])
          = (Returned (_, 2, false), _)) as Hrun by (vm_compute; reflexivity).
  destruct (session_cost (K := linux) (P := x86_64) 100 c 64 stub_idle
              stub_idle stub_run (ready [5; 9; 10; 10]) _ _ _ _
              ltac:(check_config) ltac:(check_config) Hrun)
    as (cnts & Htr & Hlen & _).
  exists cnts. split; [exact Hrun|]. split; [exact Htr|exact Hlen].
Defined.

Lemma reported_floor_last_round_witness :
  let c := configured 0.05 0.05 1 1 2 1 in
  exists st m' last,
    run_session (K := linux) (P := x86_64) 100 c 64 stub_idle stub_idle
        stub_run (ready [5; 9; 10; 10])
      = (Returned (st, 2, false), m') /\
    L_hat st ∈ last /\
    Forall (fun cnt => L_hat st <= cnt) last.
Proof.
  intros c. eexists _, _.
  assert (run_session (K := linux) (P := x86_64) 100 c 64 stub_idle stub_idle
            stub_run (ready [5; 9; 10; 10])
          = (Returned (_, 2, false), _)) as Hrun by (vm_compute; reflexivity).
  destruct (reported_floor_last_round (K := linux) (P := x86_64) 100 c 64
              stub_idle stub_idle stub_run (ready [5; 9; 10; 10]) _ _ _ _
              ltac:(check_config) ltac:(check_config) Hrun)
    as (i0 & st0 & m1 & last & _ & _ & _ & _ & Hin & Hall).
  exists last. split; [exact Hrun|]. split; [exact Hin|exact Hall].
Defined.

Lemma no_round_no_trial_witness :
  let c := configured 0.05 0.05 1 1 0 1 in
  m_max_rounds c <= 0 /\
  exists m',
    collect (K := linux) (P := x86_64) 100 c 64 2 stub_idle stub_idle
        stub_run stub_updater (ready [5; 9])
      = (Returned tt, m') /\
    trace m' = [Report 64 0 0 0; Report 128 0 0 0].
Proof.
  intros c. split; [simpl; lia|]. eexists.
  assert (collect (K := linux) (P := x86_64) 100 c 64 2 stub_idle stub_idle
            stub_run stub_updater (ready [5; 9])
          = (Returned tt, _)) as Hrun by (vm_compute; reflexivity).
  split; [exact Hrun|].
  exact (no_round_no_trial (K := linux) (P := x86_64) 100 c stub_idle
           stub_idle stub_run 64 2 stub_updater (ready [5; 9]) _
           ltac:(simpl; lia) Hrun).
Defined.

Lemma construct_then_collect_witness :
  exists m',
    (c <- collector_ctor (K := linux) 0.05 0.05 1 1 2 1 ;;
     collect (K := linux) (P := x86_64) 100 c 64 3 stub_idle stub_idle stub_run
       stub_updater) (boot [5; 9; 10; 10; 1; 2; 3; 4; 5; 6; 7; 8])
    = (Returned tt, m') /\
    report_sizes (trace m') = [64; 128; 256].
Proof.
  apply (construct_then_collect (K := linux) (P := x86_64) stub_idle stub_idle
           stub_run stub_updater ltac:(stub_total) ltac:(stub_total)
           ltac:(stub_total) 0.05 0.05 1 1 2 1 100%nat 64 3
           (boot [5; 9; 10; 10; 1; 2; 3; 4; 5; 6; 7; 8])).
  - stub_total.
  - split; intros; unfold linux; simpl; lia.
  - vm_compute. discriminate.
  - vm_compute. reflexivity.
  - vm_compute. reflexivity.
Defined.

Lemma collect_without_channel_witness :
  exists m',
    (c <- collector_ctor (K := linux_without_perf) 0.05 0.05 1 1 2 1 ;;
     collect (K := linux_without_perf) (P := x86_64) 100 c 64 3 stub_idle
       stub_idle stub_run stub_updater) (boot [5; 9; 10; 10])
    = (Undefined, m') /\
    trace m' = [].
Proof.
  apply (collect_without_channel (K := linux_without_perf) (P := x86_64)
           stub_idle stub_idle stub_run stub_updater ltac:(stub_total)
           ltac:(stub_total) ltac:(stub_total) 0.05 0.05 1 1 2 1 100%nat 64 3
           (boot [5; 9; 10; 10])).
  - reflexivity.
  - lia.
  - lia.
  - lia.
  - lia.
Defined.

(** The counter built on the recording world where every event opens. *)
Lemma trial_call_order_witness :
  let K := Recorder.rec_kernel all_events in
  let m0 := {| ctr := Counter.empty; world := []; trace := [] |} in
  let m := (counter_ctor (K := K)
              [PERF_COUNT_SW_TASK_CLOCK; PERF_COUNT_SW_CPU_CLOCK]
              [PERF_COUNT_HW_INSTRUCTIONS; PERF_COUNT_HW_REF_CPU_CYCLES]
              m0).2 in
  reachable (K := K) (opened (K := K) requested [] []) m /\
  exists counts m',
    Collector.get_counts (K := K) 64 Recorder.rec_setup Recorder.rec_teardown
      Recorder.rec_body m = (Returned counts, m') /\
    world m' = world m ++ [Recorder.Setup 64]
                 ++ Recorder.start_actions [3; 4; 5; 6]
                 ++ [Recorder.Body 64]
                 ++ Recorder.stop_actions [3; 4; 5; 6]
                 ++ [Recorder.Teardown 64].
Proof.
  intros K m0 m.
  assert (reachable (K := K) (opened (K := K) requested [] []) m) as Hreach.
  { apply (reachable_ctor (K := K)
             [PERF_COUNT_SW_TASK_CLOCK; PERF_COUNT_SW_CPU_CLOCK]
             [PERF_COUNT_HW_INSTRUCTIONS; PERF_COUNT_HW_REF_CPU_CYCLES]
             m0 (Returned tt)); reflexivity. }
  split; [exact Hreach|].
  exact (trial_call_order all_events _ 64 m Hreach).
Defined.

Lemma throwing_run_leaves_counters_enabled_witness :
  let K := Recorder.rec_kernel all_events in
  let m0 := {| ctr := Counter.empty; world := []; trace := [] |} in
  let m := (counter_ctor (K := K)
              [PERF_COUNT_SW_TASK_CLOCK; PERF_COUNT_SW_CPU_CLOCK]
              [PERF_COUNT_HW_INSTRUCTIONS; PERF_COUNT_HW_REF_CPU_CYCLES]
              m0).2 in
  reachable (K := K) (opened (K := K) requested [] []) m /\
  exists m',
    Collector.get_counts (K := K) 64 Recorder.rec_setup Recorder.rec_teardown
      (Recorder.rec_throwing_body 5) m = (Thrown 5, m') /\
    world m' = world m ++ [Recorder.Setup 64]
                 ++ Recorder.start_actions [3; 4; 5; 6]
                 ++ [Recorder.Body 64].
Proof.
  intros K m0 m.
  assert (reachable (K := K) (opened (K := K) requested [] []) m) as Hreach.
  { apply (reachable_ctor (K := K)
             [PERF_COUNT_SW_TASK_CLOCK; PERF_COUNT_SW_CPU_CLOCK]
             [PERF_COUNT_HW_INSTRUCTIONS; PERF_COUNT_HW_REF_CPU_CYCLES]
             m0 (Returned tt)); reflexivity. }
  split; [exact Hreach|].
  exact (throwing_run_leaves_counters_enabled all_events _ 64 5 m Hreach).
Defined.

(** Where every ioctl fails, [collect] ends by an exception. *)
Lemma collect_exits_witness :
  let c := configured 0.05 0.05 1 1 2 1 in
  exists m',
    collect (K := linux_failing_ioctl) (P := x86_64) 100 c 64 3 stub_idle
        stub_idle stub_run stub_updater (ready [5; 9; 10; 10])
      = (Thrown 22, m') /\
    exits (Thrown (A := unit) 22).
Proof.
  intros c. eexists.
  assert (collect (K := linux_failing_ioctl) (P := x86_64) 100 c 64 3
            stub_idle stub_idle stub_run stub_updater (ready [5; 9; 10; 10])
          = (Thrown 22, _)) as Hrun by (vm_compute; reflexivity).
  split; [exact Hrun|].
  eapply (collect_exits (K := linux_failing_ioctl) (P := x86_64) c stub_idle
            stub_idle stub_run stub_updater);
    [| | | | | | |exact Hrun].
  - intros N w. exact I.
  - intros N w. exact I.
  - intros N w. exact I.
  - intros N s L k w. exact I.
  - vm_compute. reflexivity.
  - vm_compute. reflexivity.
  - subst c. unfold selected_ok, ready, configured, PERF_HW_INSTR_CTR. simpl. lia.
Defined.

